(** * pdftables/boxes.py: boxes, clipping, box lists and histograms

    A shallow embedding of [src/pdftables/boxes.py].

    - Coordinates are Python floats, IEEE 754 binary64 values.  A float
      is modelled as the rational it denotes, or one of the two
      infinities that [Box.empty_box] uses.  Comparisons, [min], [max]
      and [abs] are exact on floats; every [+], [-], [*] and [/] gives
      the float nearest to the exact result, halves to the even
      neighbour, an infinity on overflow ([Num.fl]).  No coordinate is
      not-a-number; two floats are equal in Python exactly when their
      models are (the two zeros are equal in Python as well).
    - Text is a Python 2 [unicode] string (the module imports
      [unicode_literals]): the list of its code points.
    - [Box] objects are mutable and have no [__eq__]: they live in a
      store and are passed around by reference.  Two results are the same
      box when they are the same reference, and equal boxes when the
      objects behind them have the same attributes.  [Rectangle] is an
      immutable named tuple and is a plain value.
    - Python exceptions are results of an error monad over the store.
    - The module is Python 2 ([round] returns a float and rounds halves
      away from zero); [Counter] is the class of the [counter] package,
      the backport of [collections.Counter]. *)

From Stdlib Require Import QArith Qcanon Qround Qabs Qcabs Qpower ZArith Lia.
From Stdlib Require Import Ascii String.
From stdpp Require Import base decidable list numbers option strings.

Local Open Scope bool_scope.

(** ** Numbers *)

Module Num.

Inductive num : Type :=
| NInf : num                (* float("-inf") *)
| Fin : Qc -> num
| PInf : num.               (* float("+inf") *)

#[global] Instance num_eq_dec : EqDecision num.
Proof. solve_decision. Defined.

Definition of_Z (z : Z) : num := Fin (Qc_of_Z z).
Definition of_Q (q : Q) : num := Fin (Q2Qc q).

(** [a <= b] *)
Definition leb (a b : num) : bool :=
  match a, b with
  | NInf, _ => true
  | _, PInf => true
  | Fin x, Fin y => bool_decide (Qcle x y)
  | _, _ => false
  end.

(** [a < b] *)
Definition ltb (a b : num) : bool :=
  match a, b with
  | NInf, NInf => false
  | NInf, _ => true
  | PInf, _ => false
  | Fin x, Fin y => bool_decide (Qclt x y)
  | Fin _, PInf => true
  | Fin _, NInf => false
  end.

(** [a > b] *)
Definition gtb (a b : num) : bool := ltb b a.

Definition le (a b : num) : Prop := leb a b = true.

#[global] Instance le_dec : RelDecision le.
Proof. intros a b. unfold le. apply _. Defined.

(** The builtin [max(a, b)]: the first argument is kept unless the
    second is strictly greater. *)
Definition max (a b : num) : num := if gtb b a then b else a.

(** The builtin [min(a, b)]. *)
Definition min (a b : num) : num := if ltb b a then b else a.

(** *** Rounding to binary64 *)

Definition pow2 (k : Z) : Q := Qpower 2 k.

(** The exponent [e] of the binade of a positive [x]:
    [2^e <= x < 2^(e+1)]. *)
Definition ilog2 (x : Q) : Z :=
  let e0 := (Z.log2 (Qnum x) - Z.log2 (Z.pos (Qden x)))%Z in
  if Qlt_le_dec x (pow2 e0) then (e0 - 1)%Z else e0.

(** The nearest integer, a half to the even neighbour. *)
Definition rne (t : Q) : Z :=
  let f := Qfloor t in
  match Qcompare (t - inject_Z f) (1 # 2) with
  | Lt => f
  | Gt => (f + 1)%Z
  | Eq => if Z.even f then f else (f + 1)%Z
  end.

(** The exponent of the last place of the floats around a positive [x]:
    53 significant bits, and no finer than [2^-1074]. *)
Definition quantum (x : Q) : Z := Z.max (ilog2 x - 52) (-1074).

Definition rnd_pos (x : Q) : Q :=
  let k := quantum x in (inject_Z (rne (x / pow2 k)) * pow2 k)%Q.

(** The nearest float, before the test for overflow. *)
Definition rnd (x : Q) : Q :=
  match Qcompare x 0 with
  | Eq => 0%Q
  | Gt => rnd_pos x
  | Lt => (- rnd_pos (- x))%Q
  end.

(** The float that an operation with the exact result [x] returns. *)
Definition fl (x : Qc) : num :=
  let y := rnd x in
  if Qle_bool (pow2 1024) (Qabs y)
  then (if Qle_bool 0 y then PInf else NInf)
  else Fin (Q2Qc y).


(** [a - b]; [None] is the not-a-number that two equal infinities give. *)
Definition sub (a b : num) : option num :=
  match a, b with
  | Fin x, Fin y => Some (fl (x - y)%Qc)
  | PInf, PInf => None
  | NInf, NInf => None
  | PInf, _ => Some PInf
  | NInf, _ => Some NInf
  | Fin _, PInf => Some NInf
  | Fin _, NInf => Some PInf
  end.

(** [abs(x)] *)
Definition abs (a : num) : num :=
  match a with
  | Fin x => Fin (Qcabs x)
  | _ => PInf
  end.

(** [a * c] and [a / c] for a finite [c] other than zero: an infinity
    keeps or flips its sign. *)
Definition mul_q (a : num) (c : Qc) : num :=
  match a with
  | Fin x => fl (x * c)%Qc
  | PInf => if decide (Qclt 0 c) then PInf else NInf
  | NInf => if decide (Qclt 0 c) then NInf else PInf
  end.

Definition div_q (a : num) (c : Qc) : num :=
  match a with
  | Fin x => fl (x / c)%Qc
  | PInf => if decide (Qclt 0 c) then PInf else NInf
  | NInf => if decide (Qclt 0 c) then NInf else PInf
  end.

(** [round(x)] of Python 2 on a finite float: to the nearest integer,
    halves away from zero; the result is a float without rounding. *)
Definition round_q (x : Qc) : Z :=
  if decide (Qcle 0 x) then Qfloor (x + (1 # 2))%Q
  else Qceiling (x - (1 # 2))%Q.

(** [round(a)]; the result is a float again, an infinity is kept. *)
Definition round (a : num) : num :=
  match a with
  | Fin x => Fin (Qc_of_Z (round_q x))
  | PInf => PInf
  | NInf => NInf
  end.

End Num.
Import Num.

(** ** Text *)

(** A [unicode] string is the list of its code points. *)
Abbreviation unicode := (list N).

(** A literal of the source: its characters are below 128. *)
Definition u (s : string) : unicode := map N_of_ascii (list_ascii_of_string s).

(** Whitespace as [strip()] sees it on a [unicode] string: the code
    points that [unicode.isspace] accepts in Python 2.7 (Unicode 5.2).
    Later versions of the Unicode database agree, but for U+180E. *)
Definition is_space (c : N) : bool :=
  ((0x9 <=? c) && (c <=? 0xD))%N
  || ((0x1C <=? c) && (c <=? 0x1F))%N
  || (c =? 0x20)%N || (c =? 0x85)%N || (c =? 0xA0)%N
  || (c =? 0x1680)%N || (c =? 0x180E)%N
  || ((0x2000 <=? c) && (c <=? 0x200A))%N
  || (c =? 0x2028)%N || (c =? 0x2029)%N || (c =? 0x202F)%N
  || (c =? 0x205F)%N || (c =? 0x3000)%N.

Fixpoint lstrip (s : unicode) : unicode :=
  match s with
  | [] => []
  | c :: s' => if is_space c then lstrip s' else s
  end.

Definition rstrip (s : unicode) : unicode := rev (lstrip (rev s)).

(** [s.strip()] *)
Definition strip (s : unicode) : unicode := rstrip (lstrip s).

Fixpoint is_prefix (p s : unicode) : bool :=
  match p, s with
  | [], _ => true
  | a :: p', b :: s' => bool_decide (a = b) && is_prefix p' s'
  | _ :: _, [] => false
  end.

(** [s.endswith(suffix)] *)
Definition endswith (s suffix : unicode) : bool :=
  is_prefix (rev suffix) (rev s).

(** ** Rectangle *)

(** [namedtuple("Rectangle", "x1 y1 x2 y2")] *)
Record Rectangle : Type := mkRectangle { x1 : num; y1 : num; x2 : num; y2 : num }.

#[global] Instance Rectangle_eq_dec : EqDecision Rectangle.
Proof. solve_decision. Defined.

(** [rect._replace(x2=v)] *)
Definition replace_x2 (r : Rectangle) (v : num) : Rectangle :=
  {| x1 := x1 r; y1 := y1 r; x2 := v; y2 := y2 r |}.

(** ** Box *)

(** The attributes of a [Box] object.  [text], [barycenter] and
    [barycenter_y] default to Python's [None]; [classname] is not set by
    [__init__] at all, [None] here means the attribute is absent.  A
    class name is an identifier, a string of characters below 128. *)
Record Box : Type := mkBox {
  rect : Rectangle;
  text : option unicode;
  barycenter : option (num * num);
  barycenter_y : option num;
  classname : option string
}.

#[global] Instance Box_eq_dec : EqDecision Box.
Proof. solve_decision. Defined.

(** Anything that has the four edge attributes can be clipped against or
    used as the window of [inside]; [Rectangle] itself has only
    [x1 y1 x2 y2] and is not such an object. *)
Class RectLike (A : Type) : Type := {
  left : A -> num;
  top : A -> num;
  right : A -> num;
  bottom : A -> num
}.

(** The properties [Box.left], [Box.top], [Box.right], [Box.bottom]. *)
#[global] Instance Box_RectLike : RectLike Box := {
  left b := x1 (rect b);
  top b := y1 (rect b);
  right b := x2 (rect b);
  bottom b := y2 (rect b)
}.


(** What [Box(rect, text, barycenter, barycenter_y)] stores. *)
Definition Box_new (r : Rectangle) (t : option unicode)
    (bc : option (num * num)) (by_ : option num) : Box :=
  {| rect := r; text := t; barycenter := bc; barycenter_y := by_;
     classname := None |}.

Definition empty_rect : Rectangle :=
  {| x1 := PInf; y1 := PInf; x2 := NInf; y2 := NInf |}.

(** The value of [Box.empty_box]. *)
Definition empty_box_value : Box := Box_new empty_rect None None None.

(** ** The store and the error monad *)

Inductive exn : Type :=
| AttributeError
| TypeError
| ValueError
| ZeroDivisionError
| InvalidRef.   (* a reference outside the store; Python never has one *)

Inductive res (A : Type) : Type :=
| Ok : A -> res A
| Raise : exn -> res A.
Arguments Ok {A} _.
Arguments Raise {A} _.

(** References are positions in the store. *)
Abbreviation loc := nat.
Abbreviation heap := (list Box).

Definition M (A : Type) : Type := heap -> res A * heap.

Definition ret {A} (a : A) : M A := fun h => (Ok a, h).
Definition raise {A} (e : exn) : M A := fun h => (Raise e, h).
Definition bind {A B} (m : M A) (k : A -> M B) : M B :=
  fun h => match m h with
           | (Ok a, h') => k a h'
           | (Raise e, h') => (Raise e, h')
           end.

Notation "'let!' x ':=' m 'in' k" := (bind m (fun x => k))
  (at level 10, x name, m at level 100, k at level 200).
Notation "'do!' m 'in' k" := (bind m (fun _ => k))
  (at level 10, m at level 100, k at level 200).

(** Read the object behind a reference. *)
Definition load (l : loc) : M Box :=
  fun h => match h !! l with
           | Some b => (Ok b, h)
           | None => (Raise InvalidRef, h)
           end.

(** Overwrite the object behind a reference. *)
Definition store (l : loc) (b : Box) : M unit :=
  fun h => if decide (l < length h) then (Ok tt, <[l := b]> h)
           else (Raise InvalidRef, h).

(** Create a new object. *)
Definition alloc (b : Box) : M loc :=
  fun h => (Ok (length h), h ++ [b]).

(** [Box.empty_box] is created when the module is loaded: it is the first
    object of the store. *)
Definition empty_box : loc := 0.
Definition init_heap : heap := [empty_box_value].

(** The sentinel is where the module put it and still has its value. *)
Definition sentinel_ok (h : heap) : Prop := h !! empty_box = Some empty_box_value.

(** ** Box methods *)

(** [Box.__init__]; the [isinstance] check is the type of [r]. *)
Definition Box_init (r : Rectangle) (t : option unicode)
    (bc : option (num * num)) (by_ : option num) : M loc :=
  alloc (Box_new r t bc by_).

(** [Box.copy(o)] *)
Definition copy (o : loc) : M loc :=
  let! b := load o in
  Box_init (rect b) (text b) (barycenter b) (barycenter_y b).

(** [t.strip()] on an attribute that may be [None]. *)
Definition text_strip (t : option unicode) : res unicode :=
  match t with
  | Some s => Ok (strip s)
  | None => Raise AttributeError
  end.

(** The inner function [equal] of [is_connected_to]. *)
Definition equal (self_text : unicode) (l r : num) : bool :=
  let TOLERANCE := if endswith self_text (u "(") then of_Z 10 else of_Q (1 # 2) in
  match Num.sub l r with
  | Some d => Num.ltb (Num.abs d) TOLERANCE
  | None => false
  end.

(** The largest floats below the two tolerances. *)
Definition below_half : Q := ((1 # 2) - pow2 (-54))%Q.
Definition below_ten : Q := (10 - pow2 (-49))%Q.

(** [self.is_connected_to(next)] on the attribute values. *)
Definition is_connected_to_value (self next : Box) : res bool :=
  match text_strip (text self) with
  | Raise e => Raise e
  | Ok s1 =>
    if bool_decide (s1 = []) then Ok false
    else match text_strip (text next) with
    | Raise e => Raise e
    | Ok s2 =>
      if bool_decide (s2 = []) then Ok false
      else
        match text self with
        | None => Raise AttributeError
        | Some ts =>
          let shared_barycenter :=
            bool_decide (barycenter_y self = barycenter_y next) in
          let shared_boundary := equal ts (right self) (left next) in
          Ok (shared_barycenter && shared_boundary)
        end
    end
  end.

Definition lift {A} (r : res A) : M A := fun h => (r, h).

Definition is_connected_to (self next : loc) : M bool :=
  let! s := load self in
  let! n := load next in
  lift (is_connected_to_value s n).

(** [a + b] on two text attributes. *)
Definition text_add (a b : option unicode) : res unicode :=
  match a, b with
  | Some s, Some t => Ok (s ++ t)
  | _, _ => Raise TypeError
  end.

(** [self.extend(next)]: two statements, each reads its operands and then
    assigns to an attribute of [self]. *)
Definition extend (self next : loc) : M unit :=
  let! s := load self in
  let! n := load next in
  let! t := lift (text_add (text s) (text n)) in
  do! store self {| rect := rect s; text := Some t;
                    barycenter := barycenter s;
                    barycenter_y := barycenter_y s;
                    classname := classname s |} in
  let! s' := load self in
  let! n' := load next in
  store self {| rect := replace_x2 (rect s') (right n'); text := text s';
                barycenter := barycenter s'; barycenter_y := barycenter_y s';
                classname := classname s' |}.

Section Clip.
Context {A : Type} `{RectLike A}.

(** One turn of the loop of [clip]: the four assignments. *)
Definition clip_step (acc : Rectangle) (rectangle : A) : Rectangle :=
  {| x1 := Num.max (x1 acc) (left rectangle);
     y1 := Num.max (y1 acc) (top rectangle);
     x2 := Num.min (x2 acc) (right rectangle);
     y2 := Num.min (y2 acc) (bottom rectangle) |}.

(** The test [x1 > x2 or y1 > y2]. *)
Definition inverted (r : Rectangle) : bool :=
  Num.gtb (x1 r) (x2 r) || Num.gtb (y1 r) (y2 r).

(** The loop of [clip]; [None] is the early [return Box.empty_box]. *)
Fixpoint clip_loop (acc : Rectangle) (rectangles : list A) : option Rectangle :=
  match rectangles with
  | [] => Some acc
  | rectangle :: rest =>
    let acc' := clip_step acc rectangle in
    if inverted acc' then None else clip_loop acc' rest
  end.

(** [self.clip] with its rectangle arguments in call order. *)
Definition clip (self : loc) (rectangles : list A) : M loc :=
  let! b := load self in
  match clip_loop (rect b) rectangles with
  | None => ret empty_box
  | Some r => Box_init r None None None
  end.

(** The running intersection after the first [k] rectangles. *)
Definition running (r : Rectangle) (rectangles : list A) (k : nat) : Rectangle :=
  fold_left clip_step (take k rectangles) r.

End Clip.

(** ** BoxList *)

(** A [BoxList] is a list of references to boxes. *)
Abbreviation BoxList := (list nat).

(** A generator with a condition: [(box for box in self if keep(box))]. *)
Fixpoint select (keep : Box -> res bool) (self : BoxList) : M BoxList :=
  match self with
  | [] => ret []
  | l :: rest =>
    let! box := load l in
    let! k := lift (keep box) in
    let! tl := select keep rest in
    ret (if k then l :: tl else tl)
  end.

(** A generator without one: [(f(box) for box in self)]. *)
Fixpoint collect {B : Type} (f : Box -> B) (self : BoxList) : M (list B) :=
  match self with
  | [] => ret []
  | l :: rest =>
    let! box := load l in
    let! tl := collect f rest in
    ret (f box :: tl)
  end.

Section Inside.
Context {A : Type} `{RectLike A}.

(** The inner function [is_in_rect] of [inside]. *)
Definition is_in_rect (rect : A) (box : Box) : bool :=
  (Num.leb (left rect) (left box) && Num.leb (left box) (right box)
     && Num.leb (right box) (right rect))
  && (Num.leb (top rect) (top box) && Num.leb (top box) (bottom box)
     && Num.leb (bottom box) (bottom rect)).

(** [self.inside(rect)] *)
Definition inside (self : BoxList) (rect : A) : M BoxList :=
  select (fun box => Ok (is_in_rect rect box)) self.
End Inside.

(** The builtins [min] and [max] over what a generator yields. *)
Definition py_min (xs : list num) : res num :=
  match xs with
  | [] => Raise ValueError
  | x :: rest => Ok (fold_left Num.min rest x)
  end.

Definition py_max (xs : list num) : res num :=
  match xs with
  | [] => Raise ValueError
  | x :: rest => Ok (fold_left Num.max rest x)
  end.

(** [self.bounds()] *)
Definition bounds (self : BoxList) : M loc :=
  let! lefts := collect left self in
  let! a := lift (py_min lefts) in
  let! tops := collect top self in
  let! b := lift (py_min tops) in
  let! rights := collect right self in
  let! c := lift (py_max rights) in
  let! bottoms := collect bottom self in
  let! d := lift (py_max bottoms) in
  Box_init {| x1 := a; y1 := b; x2 := c; y2 := d |} None None None.

Definition LTTextLineHorizontal : string := "LTTextLineHorizontal".

(** The condition of [purge_empty_text]:
    [box.text.strip() or box.classname != 'LTTextLineHorizontal']. *)
Definition purge_keep (box : Box) : res bool :=
  match text_strip (text box) with
  | Raise e => Raise e
  | Ok s =>
    if negb (bool_decide (s = [])) then Ok true
    else match classname box with
         | None => Raise AttributeError
         | Some c => Ok (negb (bool_decide (c = LTTextLineHorizontal)))
         end
  end.

(** [self.purge_empty_text()] *)
Definition purge_empty_text (self : BoxList) : M BoxList :=
  select purge_keep self.

(** ** Counter and Histogram *)

Module Hist.

(** [Histogram] is a subclass of [Counter] that adds [rounder]. *)
Inductive pyclass : Type := CounterClass | HistogramClass.

(** The entries of the underlying dict, in iteration order. *)
Abbreviation dict := (list (num * Z)).

Record counter : Type := mkCounter { cls : pyclass; items : dict }.

Fixpoint dict_get (d : dict) (k : num) : option Z :=
  match d with
  | [] => None
  | (k', v) :: d' => if decide (k = k') then Some v else dict_get d' k
  end.

(** [d[k] = v] *)
Fixpoint dict_set (d : dict) (k : num) (v : Z) : dict :=
  match d with
  | [] => [(k, v)]
  | (k', v') :: d' =>
    if decide (k = k') then (k', v) :: d' else (k', v') :: dict_set d' k v
  end.

(** [c[k]] on a Counter: a missing key counts zero. *)
Definition count_of (d : dict) (k : num) : Z := default 0%Z (dict_get d k).

(** [k in d] *)
Definition dict_mem (d : dict) (k : num) : bool :=
  match dict_get d k with Some _ => true | None => false end.

(** [Counter.__add__], which [c + Histogram(...)] calls: it starts from
    [result = Counter()], a plain [Counter] whatever the classes of its
    operands, and keeps the positive sums only. *)
Definition Counter_add (self other : counter) : counter :=
  let result :=
    fold_left (fun result (item : num * Z) =>
                 let newcount := (item.2 + count_of (items other) item.1)%Z in
                 if (0 <? newcount)%Z then dict_set result item.1 newcount
                 else result)
              (items self) [] in
  let result :=
    fold_left (fun result (item : num * Z) =>
                 if negb (dict_mem (items self) item.1) && (0 <? item.2)%Z
                 then dict_set result item.1 item.2
                 else result)
              (items other) result in
  {| cls := CounterClass; items := result |}.

(** [_rounder(val, tol)]: the product with [1.0], the quotient and the
    last product are float operations. *)
Definition _rounder (val : num) (tol : Qc) : res num :=
  if decide (tol = Q2Qc 0) then Raise ZeroDivisionError
  else Ok (Num.mul_q (Num.round (Num.div_q (Num.mul_q val (Q2Qc 1)) tol)) tol).

(** The loop of [Histogram.rounder] over the entries still to visit. *)
Fixpoint rounder_loop (c : counter) (todo : dict) (tol : Qc) : res counter :=
  match todo with
  | [] => Ok c
  | (item, n) :: rest =>
    match _rounder item tol with
    | Raise e => Raise e
    | Ok k =>
      rounder_loop
        (Counter_add c {| cls := HistogramClass; items := [(k, n)] |})
        rest tol
    end
  end.

(** [self.rounder(tol)]; only [Histogram] has the method. *)
Definition rounder (self : counter) (tol : Qc) : res counter :=
  match cls self with
  | CounterClass => Raise AttributeError
  | HistogramClass =>
    rounder_loop {| cls := HistogramClass; items := [] |} (items self) tol
  end.

(** Two dicts are equal when they map the same keys to the same values. *)
Definition dict_eq (d1 d2 : dict) : Prop :=
  forall k, dict_get d1 k = dict_get d2 k.

(** What every dict built by [Counter.__add__] satisfies: distinct keys,
    positive counts; [P] is any property of the keys put in. *)
Definition tidy (P : num -> Prop) (d : dict) : Prop :=
  NoDup d.*1 /\ Forall (fun kv => P kv.1 /\ (0 < kv.2)%Z) d.

(** A histogram with one entry: one box edge at 1.0. *)
Definition one_edge : counter :=
  {| cls := HistogramClass; items := [(of_Z 1, 1%Z)] |}.

End Hist.

(** Reading a property or an attribute of a box: [left], [top], [right],
    [bottom], [width], [height], [text] and the like. *)
Definition prop_read {B : Type} (f : Box -> B) (self : loc) : M B :=
  let! b := load self in
  ret (f b).

(** ** Reading results *)

(** Every object that was in the store is still there, unchanged. *)
Definition keeps_objects {B : Type} (m : M B) : Prop :=
  forall (h : heap) (l : loc) (b : Box), h !! l = Some b -> (m h).2 !! l = Some b.

(** The references of a list and the boxes they point to in a store. *)
Definition points_to (h : heap) (bl : BoxList) (boxes : list Box) : Prop :=
  Forall2 (fun l b => h !! l = Some b) bl boxes.

(** The box a call returned, read from the store the call left. *)
Definition returned (out : res loc * heap) : option Box :=
  match out.1 with
  | Ok l => out.2 !! l
  | Raise _ => None
  end.

(** Whether a call returned the sentinel object itself. *)
Definition is_sentinel (out : res loc * heap) : bool :=
  match out.1 with
  | Ok l => bool_decide (l = empty_box)
  | Raise _ => false
  end.

(** Run a second call on the object and in the store that a first call
    returned. *)
Definition and_then {B : Type} (out : res loc * heap) (k : loc -> M B) : res B * heap :=
  match out.1 with
  | Ok l => k l out.2
  | Raise e => (Raise e, out.2)
  end.

(** [Box(Rectangle(a, b, c, d))] with integer coordinates. *)
Definition box_of (a b c d : Z) : Box :=
  Box_new {| x1 := of_Z a; y1 := of_Z b; x2 := of_Z c; y2 := of_Z d |}
          None None None.

(** A box of height one on the line [barycenter_y = 0.5], with text. *)
Definition glyph (l r : Q) (t : unicode) : Box :=
  Box_new {| x1 := of_Q l; y1 := of_Z 0; x2 := of_Q r; y2 := of_Z 1 |}
          (Some t) None (Some (of_Q (1 # 2))).

(** A box with text and the class name the layout analysis gave it. *)
Definition labelled (t : unicode) (c : string) : Box :=
  {| rect := rect (box_of 0 0 1 1); text := Some t; barycenter := None;
     barycenter_y := None; classname := Some c |}.

From Stdlib Require Import Lqa.

#[global] Instance exn_eq_dec : EqDecision exn.
Proof. solve_decision. Defined.

#[global] Instance res_eq_dec {A : Type} `{EqDecision A} : EqDecision (res A).
Proof. solve_decision. Defined.

(** ** More of [Box] and [BoxList] *)





(** The condition of [filterByType]: [box.classname in flt]. *)
Definition type_keep (flt : list string) (box : Box) : res bool :=
  match classname box with
  | None => Raise AttributeError
  | Some c => Ok (bool_decide (c ∈ flt))
  end.

(** [self.filterByType(flt)]; [flt] is [None] by default, and [not flt]
    holds for [None] and for an empty collection. *)
Definition filterByType (self : BoxList) (flt : option (list string)) : M BoxList :=
  match flt with
  | None => ret self
  | Some [] => ret self
  | Some names => select (type_keep names) self
  end.

Section Tally.
Context {K : Type} `{EqDecision K}.

(** [d.get(k)] and [d[k] = v] on a dict with keys of any type. *)
Fixpoint kget (d : list (K * Z)) (k : K) : option Z :=
  match d with
  | [] => None
  | (k', v) :: d' => if decide (k = k') then Some v else kget d' k
  end.

Fixpoint kset (d : list (K * Z)) (k : K) (v : Z) : list (K * Z) :=
  match d with
  | [] => [(k, v)]
  | (k', v') :: d' =>
    if decide (k = k') then (k', v) :: d' else (k', v') :: kset d' k v
  end.

(** [Counter(iterable)], that is [Counter.update]: for each element
    [self[elem] = self.get(elem, 0) + 1]. *)
Definition tally (elems : list K) : list (K * Z) :=
  fold_left (fun d elem => kset d elem (default 0%Z (kget d elem) + 1)%Z) elems [].

End Tally.

(** [self.histogram(dir_fun)].  Every object of the store is a [Box], so
    the assertion [type(item) == Box] of the first loop holds. *)
Definition histogram (self : BoxList) (dir_fun : Box -> num) : M Hist.counter :=
  let! _checked := collect (fun item => item) self in
  let! values := collect dir_fun self in
  ret {| Hist.cls := Hist.HistogramClass; Hist.items := tally values |}.

(** The generator of [count]: [x.classname for x in self]. *)
Fixpoint classnames (self : BoxList) : M (list string) :=
  match self with
  | [] => ret []
  | l :: rest =>
    let! x := load l in
    match classname x with
    | None => raise AttributeError
    | Some c =>
      let! tl := classnames rest in
      ret (c :: tl)
    end
  end.

(** [self.count()]: a plain [Counter] of the class names. *)
Definition count (self : BoxList) : M (list (string * Z)) :=
  let! names := classnames self in
  ret (tally names).

(** ** Sums over the entries of a dict *)

(** The sum of the counts of the entries whose key satisfies [P]. *)
Definition mass {K : Type} (P : K -> Prop) `{!forall k, Decision (P k)}
    (d : list (K * Z)) : Z :=
  foldr Z.add 0%Z (filter (fun kv => P kv.1) d).*2.

(** Where a key goes under [_rounder]: the keys that round to a key
    with [P]. *)
Definition rounds_to (tol : Qc) (P : num -> Prop) (k : num) : Prop :=
  match Hist._rounder k tol with
  | Ok k' => P k'
  | Raise _ => False
  end.

#[global] Instance rounds_to_dec (tol : Qc) (P : num -> Prop)
  `{!forall k, Decision (P k)} (k : num) : Decision (rounds_to tol P k).
Proof. unfold rounds_to. destruct (Hist._rounder k tol); apply _. Defined.

(** A box with coordinates and a class name, without text. *)
Definition shape (a b c d : Z) (cn : string) : Box :=
  {| rect := rect (box_of a b c d); text := None; barycenter := None;
     barycenter_y := None; classname := Some cn |}.

(** A store with the sentinel and three boxes, the first of them partly
    outside the page (0, 0, 10, 10). *)
Definition three_boxes : heap :=
  init_heap ++ [box_of (-1) 0 1 1; box_of 2 3 4 5; box_of 1 1 3 9].


(** * Facts about the order on numbers *)

Section NumOrder.

Lemma ltb_leb (a b : num) : Num.ltb a b = negb (Num.leb b a).
Proof.
  destruct a as [|x|], b as [|y|]; simpl; try reflexivity.
  destruct (decide (Qclt x y)) as [Hlt|Hlt], (decide (Qcle y x)) as [Hle|Hle];
    rewrite ?(bool_decide_eq_true_2 _ Hlt), ?(bool_decide_eq_false_2 _ Hlt),
            ?(bool_decide_eq_true_2 _ Hle), ?(bool_decide_eq_false_2 _ Hle);
    try reflexivity.
  - exfalso. exact (Qclt_not_le _ _ Hlt Hle).
  - exfalso. apply Hlt. apply Qcnot_le_lt. exact Hle.
Qed.

Lemma leb_refl (a : num) : Num.leb a a = true.
Proof.
  destruct a as [|x|]; simpl; try reflexivity.
  apply bool_decide_eq_true_2, Qcle_refl.
Qed.

Lemma leb_trans (a b c : num) :
  Num.leb a b = true -> Num.leb b c = true -> Num.leb a c = true.
Proof.
  destruct a as [|x|], b as [|y|], c as [|z|]; simpl; try congruence.
  rewrite !bool_decide_eq_true. apply Qcle_trans.
Qed.

Lemma leb_antisym (a b : num) :
  Num.leb a b = true -> Num.leb b a = true -> a = b.
Proof.
  destruct a as [|x|], b as [|y|]; simpl; try congruence.
  rewrite !bool_decide_eq_true. intros H1 H2. f_equal.
  apply Qcle_antisym; assumption.
Qed.

Lemma leb_total (a b : num) : Num.leb a b = true \/ Num.leb b a = true.
Proof.
  destruct a as [|x|], b as [|y|]; simpl; auto.
  rewrite !bool_decide_eq_true.
  destruct (Qclt_le_dec x y) as [Hlt|Hle]; [left; apply Qclt_le_weak|right]; assumption.
Qed.

Lemma leb_false (a b : num) : Num.leb a b = false -> Num.leb b a = true.
Proof. destruct (leb_total a b) as [E|E]; congruence. Qed.

Lemma max_leb (a b : num) : Num.max a b = if Num.leb b a then a else b.
Proof. unfold Num.max, Num.gtb. rewrite ltb_leb. destruct (Num.leb b a); reflexivity. Qed.

Lemma min_leb (a b : num) : Num.min a b = if Num.leb a b then a else b.
Proof. unfold Num.min. rewrite ltb_leb. destruct (Num.leb a b); reflexivity. Qed.

Lemma max_ge_l (a b : num) : Num.leb a (Num.max a b) = true.
Proof.
  rewrite max_leb. destruct (Num.leb b a) eqn:E; [apply leb_refl|].
  apply leb_false, E.
Qed.

Lemma max_ge_r (a b : num) : Num.leb b (Num.max a b) = true.
Proof. rewrite max_leb. destruct (Num.leb b a) eqn:E; [exact E|apply leb_refl]. Qed.

Lemma max_lub (a b c : num) :
  Num.leb a c = true -> Num.leb b c = true -> Num.leb (Num.max a b) c = true.
Proof. rewrite max_leb. destruct (Num.leb b a); auto. Qed.

Lemma min_le_l (a b : num) : Num.leb (Num.min a b) a = true.
Proof.
  rewrite min_leb. destruct (Num.leb a b) eqn:E; [apply leb_refl|].
  apply leb_false, E.
Qed.

Lemma min_le_r (a b : num) : Num.leb (Num.min a b) b = true.
Proof. rewrite min_leb. destruct (Num.leb a b) eqn:E; [exact E|apply leb_refl]. Qed.

Lemma min_glb (a b c : num) :
  Num.leb c a = true -> Num.leb c b = true -> Num.leb c (Num.min a b) = true.
Proof. rewrite min_leb. destruct (Num.leb a b); auto. Qed.

Lemma max_comm (a b : num) : Num.max a b = Num.max b a.
Proof.
  apply leb_antisym; apply max_lub; auto using max_ge_l, max_ge_r.
Qed.

Lemma max_assoc (a b c : num) :
  Num.max (Num.max a b) c = Num.max a (Num.max b c).
Proof.
  apply leb_antisym; repeat apply max_lub;
    eauto using max_ge_l, max_ge_r, leb_trans.
Qed.

Lemma min_comm (a b : num) : Num.min a b = Num.min b a.
Proof.
  apply leb_antisym; apply min_glb; auto using min_le_l, min_le_r.
Qed.

Lemma min_assoc (a b c : num) :
  Num.min (Num.min a b) c = Num.min a (Num.min b c).
Proof.
  apply leb_antisym; repeat apply min_glb;
    eauto using min_le_l, min_le_r, leb_trans.
Qed.



Lemma gtb_leb (a b : num) : Num.gtb a b = negb (Num.leb a b).
Proof. unfold Num.gtb. apply ltb_leb. Qed.

(** An inverted pair of edges stays inverted when the low edge grows and
    the high edge shrinks. *)
Lemma gtb_shrink (lo hi l r : num) :
  Num.gtb lo hi = true -> Num.gtb (Num.max lo l) (Num.min hi r) = true.
Proof.
  rewrite !gtb_leb, !negb_true_iff. intros Hinv.
  destruct (Num.leb (Num.max lo l) (Num.min hi r)) eqn:E; [|reflexivity].
  rewrite <- Hinv. symmetry.
  eapply leb_trans; [apply max_ge_l|].
  eapply leb_trans; [exact E|apply min_le_l].
Qed.

End NumOrder.

(** * Rounding to the nearest float *)

Section Rounding.
Local Open Scope Q_scope.

Lemma pow2_pos (k : Z) : 0 < pow2 k.
Proof. unfold pow2. apply Qpower_0_lt. reflexivity. Qed.

Lemma pow2_add (a b : Z) : pow2 (a + b) == pow2 a * pow2 b.
Proof. unfold pow2. apply Qpower_plus. discriminate. Qed.

Lemma pow2_Z (n : Z) : (0 <= n)%Z -> pow2 n == inject_Z (2 ^ n).
Proof. intros Hn. unfold pow2. rewrite Zpower_Qpower by exact Hn. reflexivity. Qed.

Lemma pow2_le (a b : Z) : (a <= b)%Z -> pow2 a <= pow2 b.
Proof. intros Hab. unfold pow2. apply Qpower_le_compat_l; [exact Hab | discriminate]. Qed.

Lemma pow2_lt (a b : Z) : (a < b)%Z -> pow2 a < pow2 b.
Proof. intros Hab. unfold pow2. apply Qpower_lt_compat_l; [exact Hab | reflexivity]. Qed.

Lemma pow2_lt_inv (a b : Z) : pow2 a < pow2 b -> (a < b)%Z.
Proof. intros H. unfold pow2 in H. apply Qpower_lt_compat_l_inv in H; [exact H | reflexivity]. Qed.

(** [ilog2 x] is the exponent of the binade of a positive [x]. *)
Lemma ilog2_spec (x : Q) : 0 < x -> pow2 (ilog2 x) <= x /\ x < pow2 (ilog2 x + 1).
Proof.
  intros Hx. unfold ilog2.
  destruct x as [n d]. cbn [Qnum Qden].
  assert (Hn : (0 < n)%Z) by (unfold Qlt in Hx; cbn in Hx; lia).
  set (a := Z.log2 n). set (b := Z.log2 (Z.pos d)).
  pose proof (Z.log2_spec n Hn) as [Ha1 Ha2]. fold a in Ha1, Ha2.
  pose proof (Z.log2_spec (Z.pos d) ltac:(lia)) as [Hb1 Hb2]. fold b in Hb1, Hb2.
  assert (Ha0 : (0 <= a)%Z) by apply Z.log2_nonneg.
  assert (Hb0 : (0 <= b)%Z) by apply Z.log2_nonneg.
  assert (Hxd : (n # d) * inject_Z (Z.pos d) == inject_Z n).
  { unfold Qeq, Qmult, inject_Z. cbn. lia. }
  set (x := n # d) in *.
  assert (HD1 : pow2 b <= inject_Z (Z.pos d)).
  { rewrite pow2_Z by exact Hb0. rewrite <- Zle_Qle. exact Hb1. }
  assert (HD2 : inject_Z (Z.pos d) < pow2 (b + 1)).
  { rewrite pow2_Z by lia. rewrite <- Zlt_Qlt. replace (b + 1)%Z with (Z.succ b) by lia. exact Hb2. }
  assert (HN1 : pow2 a <= inject_Z n).
  { rewrite pow2_Z by exact Ha0. rewrite <- Zle_Qle. exact Ha1. }
  assert (HN2 : inject_Z n < pow2 (a + 1)).
  { rewrite pow2_Z by lia. rewrite <- Zlt_Qlt. replace (a + 1)%Z with (Z.succ a) by lia. exact Ha2. }
  assert (Hlo : pow2 (a - b - 1) < x).
  { assert (E : pow2 a == pow2 (a - b - 1) * pow2 (b + 1)).
    { rewrite <- pow2_add. replace (a - b - 1 + (b + 1))%Z with a by lia. reflexivity. }
    pose proof (pow2_pos (a - b - 1)). pose proof (pow2_pos (b + 1)). nra. }
  assert (Hhi : x < pow2 (a - b + 1)).
  { assert (E : pow2 (a + 1) == pow2 (a - b + 1) * pow2 b).
    { rewrite <- pow2_add. replace (a - b + 1 + b)%Z with (a + 1)%Z by lia. reflexivity. }
    pose proof (pow2_pos (a - b + 1)). pose proof (pow2_pos b). nra. }
  destruct (Qlt_le_dec x (pow2 (a - b))) as [Hlt | Hge].
  - split; [apply Qlt_le_weak; exact Hlo|].
    replace (a - b - 1 + 1)%Z with (a - b)%Z by lia. exact Hlt.
  - split; [exact Hge | exact Hhi].
Qed.

Lemma ilog2_mono (x y : Q) : 0 < x -> x <= y -> (ilog2 x <= ilog2 y)%Z.
Proof.
  intros Hx Hxy.
  destruct (ilog2_spec x Hx) as [H1 _].
  destruct (ilog2_spec y ltac:(lra)) as [_ H2].
  assert (H : pow2 (ilog2 x) < pow2 (ilog2 y + 1)) by lra.
  apply pow2_lt_inv in H. lia.
Qed.

Lemma quantum_mono (x y : Q) : 0 < x -> x <= y -> (quantum x <= quantum y)%Z.
Proof. intros Hx Hxy. unfold quantum. pose proof (ilog2_mono x y Hx Hxy). lia. Qed.

(** Rounding to the nearest integer does not cross an integer. *)
Lemma rne_le (t : Q) (N : Z) : t <= inject_Z N -> (rne t <= N)%Z.
Proof.
  intros Ht. unfold rne.
  pose proof (Qfloor_le t) as Hf. pose proof (Qlt_floor t) as Hf'.
  assert (Hle : (Qfloor t <= N)%Z).
  { rewrite Zle_Qle. lra. }
  destruct (Z.eq_dec (Qfloor t) N) as [E | NE].
  - assert (Hlt : t - inject_Z (Qfloor t) < 1 # 2) by (rewrite E in *; lra).
    destruct (Qcompare_spec (t - inject_Z (Qfloor t)) (1 # 2)); [lra | lia | lra].
  - destruct (Qcompare _ _); [destruct (Z.even _)| |]; lia.
Qed.

Lemma rne_ge (t : Q) (N : Z) : inject_Z N <= t -> (N <= rne t)%Z.
Proof.
  intros Ht. unfold rne.
  assert (Hle : (N <= Qfloor t)%Z).
  { rewrite <- (Qfloor_Z N). apply Qfloor_resp_le. exact Ht. }
  destruct (Qcompare _ _); [destruct (Z.even _)| |]; lia.
Qed.

Lemma rne_nonneg (t : Q) : 0 <= t -> (0 <= rne t)%Z.
Proof. intros Ht. apply rne_ge. exact Ht. Qed.

(** A positive float is a whole multiple of the quantum of its binade. *)
Lemma float_pos_grid (c : Q) :
  0 < c -> rnd_pos c == c ->
  exists M : Z, (1 <= M)%Z /\ c == inject_Z M * pow2 (quantum c).
Proof.
  intros Hc Hfix. exists (rne (c / pow2 (quantum c))). split.
  - unfold rnd_pos in Hfix. cbv zeta in Hfix.
    pose proof (pow2_pos (quantum c)) as Hp.
    destruct (Z_lt_le_dec 0 (rne (c / pow2 (quantum c)))) as [|Hle]; [lia|].
    assert (inject_Z (rne (c / pow2 (quantum c))) <= 0).
    { change 0 with (inject_Z 0). rewrite <- Zle_Qle. exact Hle. }
    nra.
  - symmetry. exact Hfix.
Qed.

Lemma float_pos_ilog2 (c : Q) : 0 < c -> rnd_pos c == c -> (-1074 <= ilog2 c)%Z.
Proof.
  intros Hc Hfix. destruct (float_pos_grid c Hc Hfix) as (M & HM & E).
  destruct (ilog2_spec c Hc) as [_ H2].
  assert (H1 : 1 <= inject_Z M) by (change 1 with (inject_Z 1); rewrite <- Zle_Qle; exact HM).
  pose proof (pow2_pos (quantum c)) as Hp.
  assert (Hq : pow2 (-1074) <= pow2 (quantum c)) by (apply pow2_le; unfold quantum; lia).
  assert (H : pow2 (-1074) < pow2 (ilog2 c + 1)) by nra.
  apply pow2_lt_inv in H. lia.
Qed.

(** Rounding does not cross a float: from below ... *)
Lemma rnd_pos_le (x c : Q) :
  0 < x -> x <= c -> rnd_pos c == c -> rnd_pos x <= c.
Proof.
  intros Hx Hxc Hfix.
  assert (Hc : 0 < c) by lra.
  destruct (float_pos_grid c Hc Hfix) as (M & HM & E).
  pose proof (quantum_mono x c Hx Hxc) as Hk.
  set (k := quantum x) in *. set (kc := quantum c) in *.
  pose proof (pow2_pos k) as Hp.
  assert (EN : inject_Z (M * 2 ^ (kc - k)) * pow2 k == c).
  { rewrite inject_Z_mult, <- pow2_Z by lia. rewrite E.
    rewrite <- Qmult_assoc, <- pow2_add. replace (kc - k + k)%Z with kc by lia. reflexivity. }
  assert (Hr : (rne (x / pow2 k) <= M * 2 ^ (kc - k))%Z).
  { apply rne_le. apply Qle_shift_div_r; [exact Hp | rewrite EN; exact Hxc]. }
  unfold rnd_pos. fold k. rewrite Zle_Qle in Hr. rewrite <- EN.
  apply Qmult_le_compat_r; [exact Hr | lra].
Qed.

(** ... and from above. *)
Lemma rnd_pos_ge (x c : Q) :
  0 < c -> c <= x -> rnd_pos c == c -> c <= rnd_pos x.
Proof.
  intros Hc Hcx Hfix.
  assert (Hx : 0 < x) by lra.
  destruct (float_pos_grid c Hc Hfix) as (M & HM & E).
  pose proof (ilog2_mono c x Hc Hcx) as He.
  pose proof (float_pos_ilog2 c Hc Hfix) as Hmin.
  pose proof (pow2_pos (quantum x)) as Hp.
  unfold rnd_pos.
  destruct (Z.eq_dec (ilog2 c) (ilog2 x)) as [Eq | NEq].
  - assert (Ek : quantum c = quantum x) by (unfold quantum; rewrite Eq; reflexivity).
    rewrite Ek in E.
    assert (Hr : (M <= rne (x / pow2 (quantum x)))%Z).
    { apply rne_ge. apply Qle_shift_div_l; [exact Hp | rewrite <- E; exact Hcx]. }
    rewrite Zle_Qle in Hr. rewrite E.
    apply Qmult_le_compat_r; [exact Hr | lra].
  - destruct (ilog2_spec x Hx) as [Hx1 _]. destruct (ilog2_spec c Hc) as [_ Hc2].
    assert (Hk : (quantum x <= ilog2 x)%Z) by (unfold quantum; lia).
    set (k := quantum x) in *. set (e := ilog2 x) in *.
    assert (EN : inject_Z (2 ^ (e - k)) * pow2 k == pow2 e).
    { rewrite <- pow2_Z by lia. rewrite <- pow2_add.
      replace (e - k + k)%Z with e by lia. reflexivity. }
    assert (Hr : (2 ^ (e - k) <= rne (x / pow2 k))%Z).
    { apply rne_ge. apply Qle_shift_div_l; [exact Hp | rewrite EN; exact Hx1]. }
    rewrite Zle_Qle in Hr.
    assert (Hle : pow2 (ilog2 c + 1) <= pow2 e) by (apply pow2_le; lia).
    assert (pow2 e <= inject_Z (rne (x / pow2 k)) * pow2 k).
    { rewrite <- EN. apply Qmult_le_compat_r; [exact Hr | lra]. }
    lra.
Qed.

Lemma rnd_pos_nonneg (x : Q) : 0 < x -> 0 <= rnd_pos x.
Proof.
  intros Hx. unfold rnd_pos. pose proof (pow2_pos (quantum x)) as Hp.
  assert (H : (0 <= rne (x / pow2 (quantum x)))%Z).
  { apply rne_nonneg. apply Qle_shift_div_l; [exact Hp | lra]. }
  rewrite Zle_Qle in H. change (inject_Z 0) with 0 in H. nra.
Qed.

Lemma rnd_zero (x : Q) : x == 0 -> rnd x = 0.
Proof. intros E. unfold rnd. destruct (Qcompare_spec x 0); [reflexivity | lra | lra]. Qed.

Lemma rnd_of_pos (x : Q) : 0 < x -> rnd x = rnd_pos x.
Proof. intros H. unfold rnd. destruct (Qcompare_spec x 0); [lra | lra | reflexivity]. Qed.

Lemma rnd_of_neg (x : Q) : x < 0 -> rnd x = - rnd_pos (- x).
Proof. intros H. unfold rnd. destruct (Qcompare_spec x 0); [lra | reflexivity | lra]. Qed.








End Rounding.

(** * Facts about the loop of [clip] *)

Section ClipFacts.
Context {A : Type} `{RectLike A}.

Lemma inverted_step (acc : Rectangle) (r : A) :
  inverted acc = true -> inverted (clip_step acc r) = true.
Proof.
  unfold inverted. rewrite !orb_true_iff. simpl.
  intros [Hx|Hy]; [left|right]; apply gtb_shrink; assumption.
Qed.

Lemma inverted_fold (rs : list A) (acc : Rectangle) :
  inverted acc = true -> inverted (fold_left clip_step rs acc) = true.
Proof.
  revert acc. induction rs as [|r rs IH]; intros acc Hinv; simpl; [exact Hinv|].
  apply IH, inverted_step, Hinv.
Qed.

Lemma clip_step_comm (acc : Rectangle) (r1 r2 : A) :
  clip_step (clip_step acc r1) r2 = clip_step (clip_step acc r2) r1.
Proof.
  unfold clip_step; simpl. f_equal.
  - rewrite !max_assoc. f_equal. apply max_comm.
  - rewrite !max_assoc. f_equal. apply max_comm.
  - rewrite !min_assoc. f_equal. apply min_comm.
  - rewrite !min_assoc. f_equal. apply min_comm.
Qed.

(** With at least one rectangle the early exit is taken exactly when the
    plain intersection of everything is inverted. *)
Lemma clip_loop_fold (rs : list A) (acc : Rectangle) :
  rs <> [] ->
  clip_loop acc rs =
    if inverted (fold_left clip_step rs acc) then None
    else Some (fold_left clip_step rs acc).
Proof.
  revert acc. induction rs as [|r rs IH]; intros acc Hne; [congruence|].
  simpl. destruct (inverted (clip_step acc r)) eqn:E.
  - rewrite (inverted_fold rs _ E). reflexivity.
  - destruct rs as [|r' rs'].
    + simpl. rewrite E. reflexivity.
    + apply IH. discriminate.
Qed.

Lemma running_inverted_end (rs : list A) (acc : Rectangle) (k : nat) :
  0 < k <= length rs ->
  inverted (running acc rs k) = true ->
  inverted (fold_left clip_step rs acc) = true.
Proof.
  unfold running. intros Hk Hinv.
  rewrite <- (take_drop k rs), fold_left_app.
  apply inverted_fold, Hinv.
Qed.

Lemma clip_loop_empty_rect (rs : list A) :
  rs <> [] -> clip_loop empty_rect rs = None.
Proof.
  destruct rs as [|r rs]; [congruence|]. intros _. simpl.
  assert (E : inverted (clip_step empty_rect r) = true)
    by (apply inverted_step; reflexivity).
  rewrite E. reflexivity.
Qed.

Lemma clip_run (h : heap) (self : loc) (b : Box) (rs : list A) :
  h !! self = Some b ->
  clip self rs h =
    match clip_loop (rect b) rs with
    | None => (Ok empty_box, h)
    | Some r => (Ok (length h), h ++ [Box_new r None None None])
    end.
Proof.
  intros Hb. unfold clip, bind, load. rewrite Hb.
  destruct (clip_loop (rect b) rs); reflexivity.
Qed.

End ClipFacts.

(** C1: with at least one rectangle, [clip] returns the [empty_box]
    sentinel itself (left = top = +inf, right = bottom = -inf) as soon as
    the running intersection is inverted at some step; whatever it
    returns is the sentinel or a box that is not inverted; and clipping
    the sentinel gives the sentinel again. *)
Theorem C1_clip_normalises_to_empty_box
    {A : Type} `{RectLike A} (h : heap) (self : loc) (b : Box)
    (rectangles : list A) :
  sentinel_ok h ->
  h !! self = Some b ->
  rectangles <> [] ->
  ((exists k, 0 < k <= length rectangles /\
              inverted (running (rect b) rectangles k) = true) ->
     clip self rectangles h = (Ok empty_box, h) /\
     returned (clip self rectangles h) = Some empty_box_value /\
     rect empty_box_value = {| x1 := PInf; y1 := PInf; x2 := NInf; y2 := NInf |})
  /\ (exists l h', clip self rectangles h = (Ok l, h') /\
        ((l = empty_box /\ h' = h) \/
         (l <> empty_box /\ exists b', h' !! l = Some b' /\ inverted (rect b') = false)))
  /\ clip empty_box rectangles h = (Ok empty_box, h).
Proof.
  intros Hs Hb Hne. split; [|split].
  - intros (k & Hk & Hinv).
    assert (E : clip self rectangles h = (Ok empty_box, h)).
    { rewrite (clip_run h self b _ Hb), (clip_loop_fold _ _ Hne).
      rewrite (running_inverted_end _ _ k Hk Hinv). reflexivity. }
    split; [exact E|]. split; [|reflexivity].
    rewrite E. exact Hs.
  - rewrite (clip_run h self b _ Hb), (clip_loop_fold _ _ Hne).
    destruct (inverted (fold_left clip_step rectangles (rect b))) eqn:E.
    + exists empty_box, h. split; [reflexivity|]. left. split; reflexivity.
    + eexists _, _. split; [reflexivity|]. right. split.
      * unfold empty_box. apply lookup_lt_Some in Hb. lia.
      * eexists. split; [apply list_lookup_middle; reflexivity|]. exact E.
  - rewrite (clip_run h empty_box _ _ Hs). simpl.
    rewrite (clip_loop_empty_rect _ Hne). reflexivity.
Qed.

Lemma C1_witness :
  clip 1 [box_of 20 20 30 30; box_of 0 0 5 5] (init_heap ++ [box_of 0 0 10 10])
    = (Ok empty_box, init_heap ++ [box_of 0 0 10 10])
  /\ clip empty_box [box_of 0 0 5 5] (init_heap ++ [box_of 0 0 10 10])
    = (Ok empty_box, init_heap ++ [box_of 0 0 10 10]).
Proof.
  pose proof (C1_clip_normalises_to_empty_box
                (init_heap ++ [box_of 0 0 10 10]) 1 (box_of 0 0 10 10)
                [box_of 20 20 30 30; box_of 0 0 5 5]
                eq_refl eq_refl ltac:(discriminate)) as (H1 & _ & _).
  pose proof (C1_clip_normalises_to_empty_box
                (init_heap ++ [box_of 0 0 10 10]) 1 (box_of 0 0 10 10)
                [box_of 0 0 5 5]
                eq_refl eq_refl ltac:(discriminate)) as (_ & _ & H3).
  split; [|exact H3].
  apply H1. exists 1. split; [simpl; lia|]. vm_compute. reflexivity.
Defined.

Lemma sentinel_ok_app (h : heap) (extra : list Box) :
  sentinel_ok h -> sentinel_ok (h ++ extra).
Proof.
  unfold sentinel_ok. intros Hs.
  rewrite lookup_app_l; [exact Hs|].
  apply lookup_lt_Some in Hs. exact Hs.
Qed.

(** C3: clipping against two rectangles at once, one after the other, or
    in the other order returns the same box: the three calls all return
    the sentinel, or all return a new box with the same attributes. *)
Theorem C3_clip_order_independent
    {A : Type} `{RectLike A} (h : heap) (self : loc) (b : Box) (r1 r2 : A) :
  sentinel_ok h ->
  h !! self = Some b ->
  exists v : Box,
    returned (clip self [r1; r2] h) = Some v
    /\ returned (and_then (clip self [r1] h) (fun l => clip l [r2])) = Some v
    /\ returned (clip self [r2; r1] h) = Some v
    /\ is_sentinel (clip self [r1; r2] h)
       = is_sentinel (and_then (clip self [r1] h) (fun l => clip l [r2]))
    /\ is_sentinel (clip self [r1; r2] h) = is_sentinel (clip self [r2; r1] h).
Proof.
  intros Hs Hb.
  assert (Hlen : 0 < length h) by (apply lookup_lt_Some in Hs; exact Hs).
  assert (Hfresh : forall n, bool_decide (length h + n = empty_box) = false).
  { intros n. apply bool_decide_eq_false_2. unfold empty_box. lia. }
  rewrite !(clip_run h self b _ Hb).
  rewrite !clip_loop_fold by discriminate. simpl fold_left.
  rewrite (clip_step_comm (rect b) r2 r1).
  set (a1 := clip_step (rect b) r1).
  set (a2 := clip_step a1 r2).
  destruct (inverted a2) eqn:E2.
  - (* the intersection of all three is empty *)
    exists empty_box_value. unfold returned, is_sentinel, and_then. simpl.
    destruct (inverted a1) eqn:E1; simpl.
    + rewrite (clip_run h empty_box _ _ Hs), clip_loop_empty_rect by discriminate.
      simpl. auto.
    + rewrite (clip_run _ (length h) (Box_new a1 None None None))
        by (apply list_lookup_middle; reflexivity).
      simpl. fold a2. rewrite E2. simpl.
      pose proof (sentinel_ok_app h [Box_new a1 None None None] Hs) as Hs'.
      unfold sentinel_ok in Hs'. auto.
  - exists (Box_new a2 None None None).
    assert (E1 : inverted a1 = false).
    { destruct (inverted a1) eqn:E1; [|reflexivity].
      pose proof (inverted_step a1 r2 E1) as E. fold a2 in E. congruence. }
    rewrite E1. unfold returned, is_sentinel, and_then. simpl.
    rewrite (clip_run _ (length h) (Box_new a1 None None None))
      by (apply list_lookup_middle; reflexivity).
    simpl. fold a2. rewrite E2. simpl.
    rewrite !list_lookup_middle by reflexivity.
    rewrite length_app. simpl.
    replace (length h) with (length h + 0) at 3 by lia.
    rewrite !Hfresh.
    pose proof (Hfresh 0) as Hf0. rewrite Nat.add_0_r in Hf0. rewrite Hf0. auto.
Qed.

Lemma C3_witness :
  exists v : Box,
    returned (clip 1 [box_of 2 2 20 20; box_of 0 0 5 5]
                (init_heap ++ [box_of 0 0 10 10])) = Some v
    /\ returned (and_then (clip 1 [box_of 2 2 20 20] (init_heap ++ [box_of 0 0 10 10]))
                          (fun l => clip l [box_of 0 0 5 5])) = Some v
    /\ returned (clip 1 [box_of 0 0 5 5; box_of 2 2 20 20]
                   (init_heap ++ [box_of 0 0 10 10])) = Some v
    /\ rect v = rect (box_of 2 2 5 5).
Proof.
  destruct (C3_clip_order_independent
              (init_heap ++ [box_of 0 0 10 10]) 1 (box_of 0 0 10 10)
              (box_of 2 2 20 20) (box_of 0 0 5 5) eq_refl eq_refl)
    as (v & H1 & H2 & H3 & _).
  exists v. repeat split; try assumption.
  assert (E : returned (clip 1 [box_of 2 2 20 20; box_of 0 0 5 5]
                          (init_heap ++ [box_of 0 0 10 10]))
              = Some (box_of 2 2 5 5)) by (vm_compute; reflexivity).
  rewrite E in H1. injection H1 as <-. reflexivity.
Defined.

(** * Clipping a box against itself, and against nothing *)





(** C10: [clip] without arguments returns a new box with the rectangle
    of [self] and no text, barycenter or class name; nothing is checked
    on that path, so an inverted box, and the sentinel itself, give a new
    object with the inverted rectangle and not the sentinel. *)
Theorem C10_clip_no_arguments
    {A : Type} `{RectLike A} (h : heap) (self : loc) (b : Box) :
  h !! self = Some b ->
  clip self (@nil A) h = (Ok (length h), h ++ [Box_new (rect b) None None None])
  /\ length h <> empty_box
  /\ h !! length h = None
  /\ returned (clip self (@nil A) h)
     = Some {| rect := {| x1 := left b; y1 := top b; x2 := right b; y2 := bottom b |};
               text := None; barycenter := None; barycenter_y := None;
               classname := None |}
  /\ is_sentinel (clip self (@nil A) h) = false
  /\ (sentinel_ok h ->
      clip empty_box (@nil A) h = (Ok (length h), h ++ [Box_new empty_rect None None None])
      /\ is_sentinel (clip empty_box (@nil A) h) = false
      /\ (rect <$> returned (clip empty_box (@nil A) h)) = Some empty_rect
      /\ inverted empty_rect = true).
Proof.
  intros Hb.
  assert (Hlen : 0 < length h) by (apply lookup_lt_Some in Hb; lia).
  assert (Hne : length h <> empty_box) by (unfold empty_box; lia).
  rewrite (clip_run h self b _ Hb). simpl.
  split; [reflexivity|]. split; [exact Hne|].
  split; [apply lookup_ge_None; lia|].
  unfold returned, is_sentinel. simpl.
  rewrite list_lookup_middle by reflexivity.
  split; [destruct b as [[] ? ? ? ?]; reflexivity|].
  split; [apply bool_decide_eq_false_2; exact Hne|].
  intros Hs. rewrite (clip_run h empty_box _ _ Hs). simpl.
  rewrite list_lookup_middle by reflexivity.
  split; [reflexivity|]. split; [apply bool_decide_eq_false_2; exact Hne|].
  split; reflexivity.
Qed.

Lemma C10_witness :
  clip 1 (@nil Box) (init_heap ++ [box_of 3 0 1 1])
    = (Ok 2, init_heap ++ [box_of 3 0 1 1] ++ [box_of 3 0 1 1])
  /\ is_sentinel (clip empty_box (@nil Box) (init_heap ++ [box_of 3 0 1 1])) = false.
Proof.
  pose proof (C10_clip_no_arguments (A:=Box) (init_heap ++ [box_of 3 0 1 1]) 1
                (box_of 3 0 1 1) eq_refl) as (H1 & _ & _ & _ & _ & H2).
  split; [exact H1|]. apply (H2 eq_refl).
Defined.

(** * Adjacency of two boxes *)

Section FloatDistance.
Local Open Scope Q_scope.

Lemma Qabs_rnd_le (x c : Q) :
  0 < c -> rnd_pos c == c -> Qabs x <= c -> Qabs (rnd x) <= c.
Proof.
  intros Hc Hfix Hx.
  destruct (Q_dec x 0) as [[Hn | Hp] | Hz].
  - rewrite (rnd_of_neg x Hn).
    rewrite Qabs_neg in Hx by lra.
    pose proof (rnd_pos_nonneg (- x) ltac:(lra)).
    pose proof (rnd_pos_le (- x) c ltac:(lra) Hx Hfix).
    rewrite Qabs_neg by lra. lra.
  - rewrite (rnd_of_pos x Hp).
    rewrite Qabs_pos in Hx by lra.
    pose proof (rnd_pos_nonneg x Hp).
    pose proof (rnd_pos_le x c Hp Hx Hfix).
    rewrite Qabs_pos by lra. lra.
  - rewrite (rnd_zero x Hz). change (Qabs 0) with 0. lra.
Qed.

Lemma Qabs_rnd_ge (x c : Q) :
  0 < c -> rnd_pos c == c -> c <= Qabs x -> c <= Qabs (rnd x).
Proof.
  intros Hc Hfix Hx.
  destruct (Q_dec x 0) as [[Hn | Hp] | Hz].
  - rewrite (rnd_of_neg x Hn).
    rewrite Qabs_neg in Hx by lra.
    pose proof (rnd_pos_ge (- x) c Hc Hx Hfix).
    rewrite Qabs_neg by lra. lra.
  - rewrite (rnd_of_pos x Hp).
    rewrite Qabs_pos in Hx by lra.
    pose proof (rnd_pos_ge x c Hc Hx Hfix).
    rewrite Qabs_pos by lra. lra.
  - rewrite Hz in Hx. change (Qabs 0) with 0 in Hx. lra.
Qed.

Lemma Qcabs_le_Q (x : Qc) (c : Q) : Qcle (Qcabs x) (Q2Qc c) <-> Qabs x <= c.
Proof. unfold Qcle, Qcabs, Q2Qc. cbn [this]. rewrite !Qred_correct. reflexivity. Qed.

Lemma Qcabs_ge_Q (x : Qc) (c : Q) : Qcle (Q2Qc c) (Qcabs x) <-> c <= Qabs x.
Proof. unfold Qcle, Qcabs, Q2Qc. cbn [this]. rewrite !Qred_correct. reflexivity. Qed.

Lemma Qcabs_lt_Q (x : Qc) (c : Q) : Qclt (Qcabs x) (Q2Qc c) <-> Qabs x < c.
Proof. unfold Qclt, Qcabs, Q2Qc. cbn [this]. rewrite !Qred_correct. reflexivity. Qed.

(** A distance of at most the float [c] is computed as at most [c]. *)
Lemma fl_abs_le (x : Qc) (c : Q) :
  0 < c -> rnd_pos c == c -> c < pow2 1024 -> Qabs x <= c ->
  exists d : Qc, fl x = Fin d /\ Qabs d <= c.
Proof.
  intros Hc Hfix Hmax Hx.
  pose proof (Qabs_rnd_le x c Hc Hfix Hx) as Hle.
  unfold fl. cbv zeta.
  destruct (Qle_bool (pow2 1024) (Qabs (rnd x))) eqn:E.
  - apply Qle_bool_iff in E. lra.
  - eexists. split; [reflexivity|]. cbn [this Q2Qc]. rewrite Qred_correct. exact Hle.
Qed.

(** A distance of at least the float [c] is computed as at least [c]. *)
Lemma fl_abs_ge (x : Qc) (c : Q) :
  0 < c -> rnd_pos c == c -> c <= Qabs x ->
  Num.ltb (Num.abs (fl x)) (Fin (Q2Qc c)) = false.
Proof.
  intros Hc Hfix Hx.
  pose proof (Qabs_rnd_ge x c Hc Hfix Hx) as Hge.
  unfold fl. cbv zeta.
  destruct (Qle_bool (pow2 1024) (Qabs (rnd x))).
  - destruct (Qle_bool 0 (rnd x)); reflexivity.
  - cbn [Num.abs Num.ltb]. apply bool_decide_eq_false_2.
    rewrite Qcabs_lt_Q. cbn [this Q2Qc]. rewrite Qred_correct. lra.
Qed.

End FloatDistance.

Lemma equal_finite (ts : unicode) (r l : Qc) :
  equal ts (Fin r) (Fin l) =
    match fl (r - l) with
    | Fin d => bool_decide
                 (Qclt (Qcabs d)
                       (if endswith ts (u "(") then Qc_of_Z 10 else Q2Qc (1 # 2)))
    | _ => false
    end.
Proof.
  unfold equal. cbn [Num.sub].
  destruct (fl (r - l)) as [|d|]; destruct (endswith ts (u "(")); reflexivity.
Qed.

Lemma equal_true_finite (ts : unicode) (a b : num) :
  equal ts a b = true -> exists r l : Qc, a = Fin r /\ b = Fin l.
Proof.
  unfold equal.
  destruct a as [|r|], b as [|l|]; simpl; try discriminate;
    try (destruct (endswith ts (u "(")); discriminate).
  intros _. exists r, l. split; reflexivity.
Qed.

(** In exact terms: a distance up to the largest float below the
    tolerance passes the test, a distance from the tolerance on fails
    it. *)
Lemma equal_near (ts : unicode) (r l : Qc) :
  endswith ts (u "(") = false ->
  (Qcle (Qcabs (r - l)) (Q2Qc below_half) -> equal ts (Fin r) (Fin l) = true)
  /\ (Qcle (Q2Qc (1 # 2)) (Qcabs (r - l)) -> equal ts (Fin r) (Fin l) = false).
Proof.
  intros Hp. unfold equal. rewrite Hp. cbn [Num.sub]. split.
  - intros Hle.
    destruct (fl_abs_le (r - l)%Qc below_half) as (d & Hd & Hdle).
    + reflexivity.
    + vm_compute. reflexivity.
    + reflexivity.
    + apply Qcabs_le_Q. exact Hle.
    + rewrite Hd. cbn [Num.abs Num.ltb of_Q of_Z]. apply bool_decide_eq_true_2.
      apply Qcabs_lt_Q. eapply Qle_lt_trans; [exact Hdle|]. reflexivity.
  - intros Hge. apply (fl_abs_ge (r - l)%Qc (1 # 2)).
    + reflexivity.
    + vm_compute. reflexivity.
    + apply Qcabs_ge_Q. exact Hge.
Qed.

Lemma equal_near_paren (ts : unicode) (r l : Qc) :
  endswith ts (u "(") = true ->
  (Qcle (Qcabs (r - l)) (Q2Qc below_ten) -> equal ts (Fin r) (Fin l) = true)
  /\ (Qcle (Qc_of_Z 10) (Qcabs (r - l)) -> equal ts (Fin r) (Fin l) = false).
Proof.
  intros Hp. unfold equal, of_Z. rewrite Hp. cbn [Num.sub].
  assert (E : Qc_of_Z 10 = Q2Qc 10) by (apply Qc_is_canon; reflexivity).
  rewrite E. split.
  - intros Hle.
    destruct (fl_abs_le (r - l)%Qc below_ten) as (d & Hd & Hdle).
    + reflexivity.
    + vm_compute. reflexivity.
    + reflexivity.
    + apply Qcabs_le_Q. exact Hle.
    + rewrite Hd. cbn [Num.abs Num.ltb of_Q of_Z]. apply bool_decide_eq_true_2.
      apply Qcabs_lt_Q. eapply Qle_lt_trans; [exact Hdle|]. reflexivity.
  - intros Hge. apply (fl_abs_ge (r - l)%Qc 10).
    + reflexivity.
    + vm_compute. reflexivity.
    + apply Qcabs_ge_Q. exact Hge.
Qed.

Lemma is_connected_to_value_text (self next : Box) (ts tn : unicode) :
  text self = Some ts -> text next = Some tn ->
  is_connected_to_value self next =
    if bool_decide (strip ts = []) then Ok false
    else if bool_decide (strip tn = []) then Ok false
    else Ok (bool_decide (barycenter_y self = barycenter_y next)
             && equal ts (right self) (left next)).
Proof.
  intros Hs Hn. unfold is_connected_to_value. rewrite Hs, Hn. simpl.
  destruct (bool_decide (strip ts = [])); [reflexivity|].
  destruct (bool_decide (strip tn = [])); reflexivity.
Qed.

Lemma is_connected_to_run (h : heap) (self next : loc) (s n : Box) :
  h !! self = Some s -> h !! next = Some n ->
  is_connected_to self next h = (is_connected_to_value s n, h).
Proof.
  intros Hs Hn. unfold is_connected_to, bind, load, lift. rewrite Hs, Hn.
  destruct (is_connected_to_value s n); reflexivity.
Qed.

(** C2: for two boxes that have text, [is_connected_to] is false when
    either text is blank; otherwise it is true exactly when the two
    [barycenter_y] are equal and the distance between [self.right] and
    [next.left], as the float subtraction gives it, is below 0.5, or
    below 10 when the text of [self] ends with an open parenthesis.  In
    exact terms, at equal [barycenter_y]: every distance up to the
    largest float below the tolerance connects, every distance from the
    tolerance on does not; in particular, without the parenthesis, a
    distance of 0.4 connects and a distance of 0.6 does not. *)
Theorem C2_is_connected_to (self next : Box) (ts tn : unicode) :
  text self = Some ts ->
  text next = Some tn ->
  (strip ts = [] \/ strip tn = [] ->
     is_connected_to_value self next = Ok false)
  /\ (strip ts <> [] -> strip tn <> [] ->
      exists c : bool,
        is_connected_to_value self next = Ok c
        /\ (c = true <->
            barycenter_y self = barycenter_y next
            /\ exists r l d : Qc,
                 right self = Fin r /\ left next = Fin l
                 /\ Num.sub (Fin r) (Fin l) = Some (Fin d)
                 /\ Qclt (Qcabs d)
                         (if endswith ts (u "(") then Qc_of_Z 10 else Q2Qc (1 # 2))))
  /\ (strip ts <> [] -> strip tn <> [] ->
      barycenter_y self = barycenter_y next ->
      forall r l : Qc,
        right self = Fin r -> left next = Fin l ->
        (endswith ts (u "(") = false ->
           (Qcle (Qcabs (r - l)) (Q2Qc below_half) ->
              is_connected_to_value self next = Ok true)
           /\ (Qcle (Q2Qc (1 # 2)) (Qcabs (r - l)) ->
              is_connected_to_value self next = Ok false)
           /\ (Qcabs (r - l) = Q2Qc (4 # 10) ->
              is_connected_to_value self next = Ok true)
           /\ (Qcabs (r - l) = Q2Qc (6 # 10) ->
              is_connected_to_value self next = Ok false))
        /\ (endswith ts (u "(") = true ->
           (Qcle (Qcabs (r - l)) (Q2Qc below_ten) ->
              is_connected_to_value self next = Ok true)
           /\ (Qcle (Qc_of_Z 10) (Qcabs (r - l)) ->
              is_connected_to_value self next = Ok false))).
Proof.
  intros Hs Hn.
  rewrite (is_connected_to_value_text self next ts tn Hs Hn).
  split; [|split].
  - intros [E|E].
    + rewrite (bool_decide_eq_true_2 _ E). reflexivity.
    + rewrite (bool_decide_eq_true_2 _ E).
      destruct (bool_decide (strip ts = [])); reflexivity.
  - intros E1 E2.
    rewrite (bool_decide_eq_false_2 _ E1), (bool_decide_eq_false_2 _ E2).
    eexists. split; [reflexivity|].
    rewrite andb_true_iff, bool_decide_eq_true. split.
    + intros [Hy Heq]. split; [exact Hy|].
      destruct (equal_true_finite _ _ _ Heq) as (r & l & Hr & Hl).
      rewrite Hr, Hl, equal_finite in Heq. cbn [Num.sub].
      destruct (fl (r - l)) as [|d|] eqn:Hd; try discriminate Heq.
      exists r, l, d. split; [exact Hr|]. split; [exact Hl|].
      split; [cbn [Num.sub]; rewrite Hd; reflexivity|].
      apply bool_decide_eq_true in Heq. exact Heq.
    + intros (Hy & r & l & d & Hr & Hl & Hd & Hlt). split; [exact Hy|].
      cbn [Num.sub] in Hd. injection Hd as Hd.
      rewrite Hr, Hl, equal_finite, Hd. apply bool_decide_eq_true_2. exact Hlt.
  - intros E1 E2 Hy r l Hr Hl.
    rewrite (bool_decide_eq_false_2 _ E1), (bool_decide_eq_false_2 _ E2).
    rewrite (bool_decide_eq_true_2 _ Hy), Hr, Hl. cbn [andb].
    split.
    + intros Hp. destruct (equal_near ts r l Hp) as [Hlo Hhi].
      split; [intros H; rewrite (Hlo H); reflexivity|].
      split; [intros H; rewrite (Hhi H); reflexivity|].
      split.
      * intros H. rewrite Hlo; [reflexivity|]. rewrite H. discriminate.
      * intros H. rewrite Hhi; [reflexivity|]. rewrite H. discriminate.
    + intros Hp. destruct (equal_near_paren ts r l Hp) as [Hlo Hhi].
      split; [intros H; rewrite (Hlo H); reflexivity|].
      intros H; rewrite (Hhi H); reflexivity.
Qed.

Lemma C2_witness :
  is_connected_to_value (glyph 0 1 (u "a")) (glyph (rnd (14 # 10)) 2 (u "b")) = Ok true
  /\ is_connected_to_value (glyph 0 1 (u "a")) (glyph (rnd (16 # 10)) 2 (u "b")) = Ok false
  /\ is_connected_to_value (glyph 0 1 (u " ")) (glyph (rnd (14 # 10)) 2 (u "b")) = Ok false
  /\ is_connected_to_value (glyph 0 1 [0xA0%N; 0x2003%N]) (glyph 1 2 (u "b")) = Ok false
  /\ is_connected_to_value (glyph 0 1 (u "f(")) (glyph 6 7 (u "x")) = Ok true
  /\ is_connected_to_value (glyph 0 1 (u "f")) (glyph 6 7 (u "x")) = Ok false
  /\ is_connected_to_value (glyph 0 1 (u "f(")) (glyph 11 12 (u "x")) = Ok false
  /\ (exists c : bool,
        is_connected_to_value (glyph 0 (rnd (1 # 10)) (u "a"))
                              (glyph (rnd (6 # 10)) 1 (u "b")) = Ok c
        /\ c = false).
Proof.
  pose proof (C2_is_connected_to (glyph 0 1 (u "a")) (glyph (rnd (14 # 10)) 2 (u "b"))
                (u "a") (u "b") eq_refl eq_refl) as (_ & _ & H1).
  pose proof (C2_is_connected_to (glyph 0 1 (u "a")) (glyph (rnd (16 # 10)) 2 (u "b"))
                (u "a") (u "b") eq_refl eq_refl) as (_ & _ & H2).
  pose proof (C2_is_connected_to (glyph 0 1 (u " ")) (glyph (rnd (14 # 10)) 2 (u "b"))
                (u " ") (u "b") eq_refl eq_refl) as (H3 & _ & _).
  pose proof (C2_is_connected_to (glyph 0 1 [0xA0%N; 0x2003%N]) (glyph 1 2 (u "b"))
                [0xA0%N; 0x2003%N] (u "b") eq_refl eq_refl) as (H4 & _ & _).
  pose proof (C2_is_connected_to (glyph 0 1 (u "f(")) (glyph 6 7 (u "x"))
                (u "f(") (u "x") eq_refl eq_refl) as (_ & _ & H5).
  pose proof (C2_is_connected_to (glyph 0 1 (u "f")) (glyph 6 7 (u "x"))
                (u "f") (u "x") eq_refl eq_refl) as (_ & _ & H6).
  pose proof (C2_is_connected_to (glyph 0 1 (u "f(")) (glyph 11 12 (u "x"))
                (u "f(") (u "x") eq_refl eq_refl) as (_ & _ & H7).
  pose proof (C2_is_connected_to (glyph 0 (rnd (1 # 10)) (u "a"))
                (glyph (rnd (6 # 10)) 1 (u "b"))
                (u "a") (u "b") eq_refl eq_refl) as (_ & H8 & _).
  split; [|split; [|split; [|split; [|split; [|split; [|split]]]]]].
  - destruct (H1 ltac:(discriminate) ltac:(discriminate) eq_refl
                 (Q2Qc 1) (Q2Qc (rnd (14 # 10))) eq_refl eq_refl) as [Hno _].
    destruct (Hno eq_refl) as (Hlo & _). apply Hlo. vm_compute. discriminate.
  - destruct (H2 ltac:(discriminate) ltac:(discriminate) eq_refl
                 (Q2Qc 1) (Q2Qc (rnd (16 # 10))) eq_refl eq_refl) as [Hno _].
    destruct (Hno eq_refl) as (_ & Hhi & _). apply Hhi. vm_compute. discriminate.
  - apply H3. left. reflexivity.
  - apply H4. left. reflexivity.
  - destruct (H5 ltac:(discriminate) ltac:(discriminate) eq_refl
                 (Q2Qc 1) (Q2Qc 6) eq_refl eq_refl) as [_ Hparen].
    destruct (Hparen eq_refl) as (Hlo & _). apply Hlo. vm_compute. discriminate.
  - destruct (H6 ltac:(discriminate) ltac:(discriminate) eq_refl
                 (Q2Qc 1) (Q2Qc 6) eq_refl eq_refl) as [Hno _].
    destruct (Hno eq_refl) as (_ & Hhi & _). apply Hhi. vm_compute. discriminate.
  - destruct (H7 ltac:(discriminate) ltac:(discriminate) eq_refl
                 (Q2Qc 1) (Q2Qc 11) eq_refl eq_refl) as [_ Hparen].
    destruct (Hparen eq_refl) as (_ & Hhi). apply Hhi. vm_compute. discriminate.
  - destruct (H8 ltac:(discriminate) ltac:(discriminate)) as (c & Hc & Hiff).
    exists c. split; [exact Hc|].
    destruct c; [|reflexivity]. exfalso.
    destruct (proj1 Hiff eq_refl) as (_ & r & l & d & Hr & Hl & Hd & Hlt).
    injection Hr as <-. injection Hl as <-.
    vm_compute in Hd. injection Hd as <-.
    vm_compute in Hlt. discriminate Hlt.
Defined.

(** * Merging: [extend] and what it leaves alone *)

Lemma extend_run (h : heap) (self next : loc) (s n : Box) (ts tn : unicode) :
  h !! self = Some s ->
  h !! next = Some n ->
  text s = Some ts ->
  text n = Some tn ->
  extend self next h =
    (Ok tt,
     <[self := {| rect := replace_x2 (rect s) (right n);
                  text := Some (ts ++ tn);
                  barycenter := barycenter s;
                  barycenter_y := barycenter_y s;
                  classname := classname s |}]> h).
Proof.
  intros Hs Hn Hts Htn.
  assert (Hlt : self < length h) by (apply lookup_lt_Some in Hs; exact Hs).
  unfold extend, bind, load, store, lift.
  rewrite Hs, Hn, Hts, Htn. simpl.
  destruct (decide (self < length h)) as [_|Hc]; [|contradiction].
  rewrite list_lookup_insert_eq by exact Hlt.
  set (mid := {| rect := rect s; text := Some (ts ++ tn);
                 barycenter := barycenter s; barycenter_y := barycenter_y s;
                 classname := classname s |}).
  assert (Hn' : exists n', <[self := mid]> h !! next = Some n' /\ right n' = right n).
  { destruct (decide (next = self)) as [->|Hne].
    - exists mid. rewrite list_lookup_insert_eq by exact Hlt.
      split; [reflexivity|]. assert (n = s) by congruence. subst n. reflexivity.
    - exists n. rewrite list_lookup_insert_ne by congruence. split; [exact Hn|reflexivity]. }
  destruct Hn' as (n' & Hn' & Hr). rewrite Hn'. simpl in Hr |- *.
  rewrite length_insert.
  destruct (decide (self < length h)) as [_|Hc]; [|contradiction].
  rewrite list_insert_insert_eq. rewrite Hr. reflexivity.
Qed.

Lemma extend_no_text (h : heap) (self next : loc) (s n : Box) :
  h !! self = Some s ->
  h !! next = Some n ->
  text s = None \/ text n = None ->
  extend self next h = (Raise TypeError, h).
Proof.
  intros Hs Hn Ht. unfold extend, bind, load, lift. rewrite Hs, Hn.
  destruct Ht as [E|E]; rewrite E; [|destruct (text s)]; reflexivity.
Qed.

Lemma load_bind_keeps {B : Type} (o : loc) (k : Box -> M B) :
  (forall b, keeps_objects (k b)) -> keeps_objects (bind (load o) k).
Proof.
  intros Hk h l b Hl. unfold bind, load.
  destruct (h !! o) as [bo|]; [|exact Hl].
  specialize (Hk bo h l b Hl).
  destruct (k bo h) as [[x|e] h']; exact Hk.
Qed.

Lemma alloc_keeps (b : Box) : keeps_objects (alloc b).
Proof.
  intros h l b' Hl. unfold alloc. simpl.
  rewrite lookup_app_l; [exact Hl|]. apply lookup_lt_Some in Hl. exact Hl.
Qed.

Lemma ret_keeps {B : Type} (x : B) : keeps_objects (ret x).
Proof. intros h l b Hl. exact Hl. Qed.

Lemma lift_keeps {B : Type} (r : res B) : keeps_objects (lift r).
Proof. intros h l b Hl. exact Hl. Qed.

Lemma copy_keeps (o : loc) : keeps_objects (copy o).
Proof. apply load_bind_keeps. intros b. apply alloc_keeps. Qed.

Lemma is_connected_to_keeps (self next : loc) :
  keeps_objects (is_connected_to self next).
Proof.
  apply load_bind_keeps. intros s. apply load_bind_keeps. intros n.
  apply lift_keeps.
Qed.

Lemma clip_keeps {A : Type} `{RectLike A} (self : loc) (rs : list A) :
  keeps_objects (clip self rs).
Proof.
  apply load_bind_keeps. intros b.
  destruct (clip_loop (rect b) rs); [apply alloc_keeps|apply ret_keeps].
Qed.

Lemma prop_read_keeps {B : Type} (f : Box -> B) (self : loc) :
  keeps_objects (prop_read f self).
Proof. apply load_bind_keeps. intros b. apply ret_keeps. Qed.

(** No method can change the sentinel: the pure ones change nothing, and
    [extend] stops at the missing text of [empty_box] before it assigns. *)
Lemma keeps_objects_sentinel {B : Type} (m : M B) (h : heap) :
  keeps_objects m -> sentinel_ok h -> sentinel_ok (m h).2.
Proof. intros Hk Hs. exact (Hk h empty_box empty_box_value Hs). Qed.

Lemma extend_keeps_sentinel (h : heap) (self next : loc) :
  sentinel_ok h -> sentinel_ok (extend self next h).2.
Proof.
  intros Hok.
  destruct (h !! self) as [s|] eqn:Hs;
    [|unfold extend, bind, load; rewrite Hs; exact Hok].
  destruct (h !! next) as [n|] eqn:Hn;
    [|unfold extend, bind, load; rewrite Hs, Hn; exact Hok].
  destruct (text s) as [ts|] eqn:Hts;
    [|rewrite (extend_no_text h self next s n Hs Hn (or_introl Hts)); exact Hok].
  destruct (text n) as [tn|] eqn:Htn;
    [|rewrite (extend_no_text h self next s n Hs Hn (or_intror Htn)); exact Hok].
  rewrite (extend_run h self next s n ts tn Hs Hn Hts Htn). simpl.
  unfold sentinel_ok. rewrite list_lookup_insert_ne; [exact Hok|].
  intros ->. unfold sentinel_ok in Hok. rewrite Hok in Hs.
  injection Hs as <-. discriminate Hts.
Qed.

(** C9, as the code has it: when both boxes have text, [extend] returns
    nothing and overwrites [self] in place: its text is the old text
    followed by the text of [next], its right edge is [next.right], and
    its left, top, bottom, barycenter, barycenter_y and class name are
    as before.  Every other object is untouched, [next] included when it
    is not [self] itself.  The constructor, [copy], [is_connected_to],
    [clip] and the property reads change no existing object. *)
Theorem C9_extend_in_place (h : heap) (self next : loc) (s n : Box) (ts tn : unicode) :
  h !! self = Some s ->
  h !! next = Some n ->
  text s = Some ts ->
  text n = Some tn ->
  exists (h' : heap) (s' : Box),
    extend self next h = (Ok tt, h')
    /\ length h' = length h
    /\ h' !! self = Some s'
    /\ text s' = Some (ts ++ tn)
    /\ right s' = right n
    /\ left s' = left s /\ top s' = top s /\ bottom s' = bottom s
    /\ barycenter s' = barycenter s
    /\ barycenter_y s' = barycenter_y s
    /\ classname s' = classname s
    /\ (forall l : loc, l <> self -> h' !! l = h !! l)
    /\ (next <> self -> h' !! next = Some n)
    /\ (forall r t bc by_, keeps_objects (Box_init r t bc by_))
    /\ (forall o, keeps_objects (copy o))
    /\ (forall a b, keeps_objects (is_connected_to a b))
    /\ (forall (A : Type) (E : RectLike A) a (rs : list A), keeps_objects (clip a rs))
    /\ (forall (B : Type) (f : Box -> B) a, keeps_objects (prop_read f a)).
Proof.
  intros Hs Hn Hts Htn.
  assert (Hlt : self < length h) by (apply lookup_lt_Some in Hs; exact Hs).
  eexists _, _. split; [exact (extend_run h self next s n ts tn Hs Hn Hts Htn)|].
  split; [apply length_insert|].
  split; [apply list_lookup_insert_eq; exact Hlt|].
  repeat (split; [reflexivity|]).
  split; [intros l Hl; apply list_lookup_insert_ne; congruence|].
  split; [intros Hne; rewrite list_lookup_insert_ne by congruence; exact Hn|].
  split; [intros r t bc by_; apply alloc_keeps|].
  split; [apply copy_keeps|].
  split; [apply is_connected_to_keeps|].
  split; [intros A E a rs; apply clip_keeps|].
  intros B f a. apply prop_read_keeps.
Qed.

Lemma C9_witness :
  exists (h' : heap),
    extend 1 2 (init_heap ++ [glyph 0 1 (u "ab"); glyph 1 3 (u "cd")]) = (Ok tt, h')
    /\ h' !! 1 = Some (glyph 0 3 (u "abcd"))
    /\ h' !! 2 = Some (glyph 1 3 (u "cd")).
Proof.
  destruct (C9_extend_in_place (init_heap ++ [glyph 0 1 (u "ab"); glyph 1 3 (u "cd")]) 1 2
              (glyph 0 1 (u "ab")) (glyph 1 3 (u "cd")) (u "ab") (u "cd")
              eq_refl eq_refl eq_refl eq_refl)
    as (h' & s' & Hrun & _ & _ & _ & _ & _ & _ & _ & _ & _ & _ & _ & Hnext & _).
  exists h'. split; [exact Hrun|].
  assert (E : extend 1 2 (init_heap ++ [glyph 0 1 (u "ab"); glyph 1 3 (u "cd")])
              = (Ok tt, init_heap ++ [glyph 0 3 (u "abcd"); glyph 1 3 (u "cd")]))
    by reflexivity.
  rewrite E in Hrun. injection Hrun as <-.
  split; [reflexivity|]. apply Hnext. discriminate.
Defined.

(** C9 as stated fails in two ways: with [next] the same object as
    [self], the call changes [next] (its text is doubled); and a box
    without text cannot be extended, the call raises [TypeError]. *)
Lemma C9_counterexample :
  (extend 1 1 (init_heap ++ [glyph 0 1 (u "ab")])).1 = Ok tt
  /\ (extend 1 1 (init_heap ++ [glyph 0 1 (u "ab")])).2 !! 1 = Some (glyph 0 1 (u "abab"))
  /\ (extend 1 1 (init_heap ++ [glyph 0 1 (u "ab")])).2 !! 1
     <> (init_heap ++ [glyph 0 1 (u "ab")]) !! 1
  /\ extend 1 2 (init_heap ++ [box_of 0 0 1 1; box_of 1 0 2 1])
     = (Raise TypeError, init_heap ++ [box_of 0 0 1 1; box_of 1 0 2 1]).
Proof.
  split; [reflexivity|]. split; [reflexivity|].
  split; [vm_compute; discriminate|reflexivity].
Qed.

(** * Box lists *)

Lemma bind_ok {B C : Type} (m : M B) (k : B -> M C) (h h' : heap) (x : B) :
  m h = (Ok x, h') -> bind m k h = k x h'.
Proof. intros E. unfold bind. rewrite E. reflexivity. Qed.

Lemma collect_run {B : Type} (f : Box -> B) (h : heap) (bl : BoxList) (boxes : list Box) :
  points_to h bl boxes -> collect f bl h = (Ok (map f boxes), h).
Proof.
  induction 1 as [|l b bl boxes Hl _ IH]; [reflexivity|].
  simpl. unfold bind, load. rewrite Hl. fold (bind (A:=list B) (B:=list B)).
  unfold bind. rewrite IH. reflexivity.
Qed.

Lemma select_run (keep : Box -> res bool) (p : Box -> bool)
    (h : heap) (bl : BoxList) (boxes : list Box) :
  points_to h bl boxes ->
  Forall (fun b => keep b = Ok (p b)) boxes ->
  select keep bl h
    = (Ok (filter (fun lb : nat * Box => p lb.2 = true) (zip bl boxes)).*1, h).
Proof.
  induction 1 as [|l b bl boxes Hl _ IH]; intros Hk; [reflexivity|].
  apply Forall_cons in Hk as [Hb Hk].
  simpl. unfold bind, load, lift. rewrite Hl, Hb.
  fold (bind (A:=list nat) (B:=list nat)). unfold bind. rewrite (IH Hk).
  unfold ret. rewrite filter_cons. simpl.
  destruct (p b); simpl; reflexivity.
Qed.

Lemma fold_min_least (xs : list num) (x : num) :
  fold_left Num.min xs x ∈ x :: xs
  /\ Forall (Num.le (fold_left Num.min xs x)) (x :: xs).
Proof.
  revert x. induction xs as [|y xs IH]; intros x; simpl.
  - split; [apply list_elem_of_here|]. constructor; [apply leb_refl|constructor].
  - destruct (IH (Num.min x y)) as [Hin Hall]. split.
    + apply elem_of_cons in Hin as [Hin|Hin].
      * rewrite Hin, min_leb. destruct (Num.leb x y).
        -- apply list_elem_of_here.
        -- apply list_elem_of_further, list_elem_of_here.
      * do 2 apply list_elem_of_further. exact Hin.
    + apply Forall_cons in Hall as [Hm Hall].
      constructor; [|constructor; [|exact Hall]].
      * eapply leb_trans; [exact Hm|apply min_le_l].
      * eapply leb_trans; [exact Hm|apply min_le_r].
Qed.

Lemma fold_max_greatest (xs : list num) (x : num) :
  fold_left Num.max xs x ∈ x :: xs
  /\ Forall (fun y => Num.le y (fold_left Num.max xs x)) (x :: xs).
Proof.
  revert x. induction xs as [|y xs IH]; intros x; simpl.
  - split; [apply list_elem_of_here|]. constructor; [apply leb_refl|constructor].
  - destruct (IH (Num.max x y)) as [Hin Hall]. split.
    + apply elem_of_cons in Hin as [Hin|Hin].
      * rewrite Hin, max_leb. destruct (Num.leb y x).
        -- apply list_elem_of_here.
        -- apply list_elem_of_further, list_elem_of_here.
      * do 2 apply list_elem_of_further. exact Hin.
    + apply Forall_cons in Hall as [Hm Hall].
      constructor; [|constructor; [|exact Hall]].
      * eapply leb_trans; [apply max_ge_l|exact Hm].
      * eapply leb_trans; [apply max_ge_r|exact Hm].
Qed.

(** C6: on a list that is not empty, [bounds] returns a new box whose
    rectangle is (least left, least top, greatest right, greatest
    bottom) of the boxes; over (0,0,2,2) and (1,1,5,5) that is
    (0,0,5,5); on the empty list it raises [ValueError]. *)
Theorem C6_bounds (h : heap) (bl : BoxList) (boxes : list Box) :
  points_to h bl boxes ->
  (bl <> [] ->
   exists r : Rectangle,
     bounds bl h = (Ok (length h), h ++ [Box_new r None None None])
     /\ returned (bounds bl h) = Some (Box_new r None None None)
     /\ x1 r ∈ map left boxes /\ Forall (Num.le (x1 r)) (map left boxes)
     /\ y1 r ∈ map top boxes /\ Forall (Num.le (y1 r)) (map top boxes)
     /\ x2 r ∈ map right boxes /\ Forall (fun v => Num.le v (x2 r)) (map right boxes)
     /\ y2 r ∈ map bottom boxes /\ Forall (fun v => Num.le v (y2 r)) (map bottom boxes))
  /\ bounds [] h = (Raise ValueError, h)
  /\ returned (bounds [1; 2] (init_heap ++ [box_of 0 0 2 2; box_of 1 1 5 5]))
     = Some (box_of 0 0 5 5).
Proof.
  intros Hp. split; [|split; [reflexivity|vm_compute; reflexivity]].
  intros Hne.
  destruct Hp as [|l b bl boxes Hl Hp]; [congruence|].
  assert (Hp' : points_to h (l :: bl) (b :: boxes)) by (constructor; assumption).
  unfold bounds.
  rewrite (bind_ok _ _ _ _ _ (collect_run left h _ _ Hp')).
  rewrite (bind_ok (lift (py_min (map left (b :: boxes)))) _ h h _ eq_refl).
  rewrite (bind_ok _ _ _ _ _ (collect_run top h _ _ Hp')).
  rewrite (bind_ok (lift (py_min (map top (b :: boxes)))) _ h h _ eq_refl).
  rewrite (bind_ok _ _ _ _ _ (collect_run right h _ _ Hp')).
  rewrite (bind_ok (lift (py_max (map right (b :: boxes)))) _ h h _ eq_refl).
  rewrite (bind_ok _ _ _ _ _ (collect_run bottom h _ _ Hp')).
  rewrite (bind_ok (lift (py_max (map bottom (b :: boxes)))) _ h h _ eq_refl).
  unfold Box_init, alloc.
  eexists. split; [reflexivity|].
  unfold returned. simpl. rewrite list_lookup_middle by reflexivity.
  split; [reflexivity|]. simpl.
  pose proof (fold_min_least (map left boxes) (left b)) as [? ?].
  pose proof (fold_min_least (map top boxes) (top b)) as [? ?].
  pose proof (fold_max_greatest (map right boxes) (right b)) as [? ?].
  pose proof (fold_max_greatest (map bottom boxes) (bottom b)) as [? ?].
  repeat split; assumption.
Qed.

Lemma C6_witness :
  exists r : Rectangle,
    bounds [1; 2] (init_heap ++ [box_of 0 0 2 2; box_of 1 1 5 5])
    = (Ok 3, init_heap ++ [box_of 0 0 2 2; box_of 1 1 5 5] ++ [Box_new r None None None])
    /\ x1 r ∈ map left [box_of 0 0 2 2; box_of 1 1 5 5].
Proof.
  destruct (C6_bounds (init_heap ++ [box_of 0 0 2 2; box_of 1 1 5 5]) [1; 2]
              [box_of 0 0 2 2; box_of 1 1 5 5]) as [H1 _].
  - repeat constructor.
  - destruct (H1 ltac:(discriminate)) as (r & Hrun & _ & Hin & _).
    exists r. split; [exact Hrun|exact Hin].
Defined.

Lemma filtered_sublist (P : nat * Box -> Prop) `{!forall x, Decision (P x)}
    (h : heap) (bl : BoxList) (boxes : list Box) :
  points_to h bl boxes ->
  sublist (filter P (zip bl boxes)).*1 bl.
Proof.
  intros Hp.
  rewrite <- (fst_zip bl boxes) at 2
    by (apply Forall2_length in Hp; lia).
  apply fmap_sublist, sublist_filter.
Qed.

Lemma is_in_rect_iff {A : Type} `{RectLike A} (rect : A) (box : Box) :
  is_in_rect rect box = true <->
  Num.le (left rect) (left box) /\ Num.le (left box) (right box)
  /\ Num.le (right box) (right rect)
  /\ Num.le (top rect) (top box) /\ Num.le (top box) (bottom box)
  /\ Num.le (bottom box) (bottom rect).
Proof.
  unfold is_in_rect, Num.le. rewrite !andb_true_iff. tauto.
Qed.

(** C7: [inside] leaves the store as it is and returns, in the order of
    the input, exactly the boxes with
    [rect.left <= left <= right <= rect.right] and
    [rect.top <= top <= bottom <= rect.bottom]; the box (-1,0,1,1) is
    not inside (0,0,10,10). *)
Theorem C7_inside {A : Type} `{RectLike A}
    (h : heap) (bl : BoxList) (boxes : list Box) (rect : A) :
  points_to h bl boxes ->
  exists out : BoxList,
    inside bl rect h = (Ok out, h)
    /\ out = (filter (fun lb : nat * Box =>
                Num.le (left rect) (left lb.2) /\ Num.le (left lb.2) (right lb.2)
                /\ Num.le (right lb.2) (right rect)
                /\ Num.le (top rect) (top lb.2) /\ Num.le (top lb.2) (bottom lb.2)
                /\ Num.le (bottom lb.2) (bottom rect))
              (zip bl boxes)).*1
    /\ sublist out bl
    /\ inside [1; 2] (box_of 0 0 10 10)
         (init_heap ++ [box_of (-1) 0 1 1; box_of 2 3 4 5])
       = (Ok [2], init_heap ++ [box_of (-1) 0 1 1; box_of 2 3 4 5]).
Proof.
  intros Hp. eexists. split; [|split; [reflexivity|split]].
  - unfold inside.
    rewrite (select_run _ (is_in_rect rect) h bl boxes Hp)
      by (apply Forall_forall; reflexivity).
    f_equal. f_equal. f_equal. apply list_filter_iff.
    intros [l b]. apply is_in_rect_iff.
  - apply filtered_sublist with (h := h). exact Hp.
  - vm_compute. reflexivity.
Qed.

Lemma C7_witness :
  exists out : BoxList,
    inside [1; 2] (box_of 0 0 10 10)
      (init_heap ++ [box_of (-1) 0 1 1; box_of 2 3 4 5])
    = (Ok out, init_heap ++ [box_of (-1) 0 1 1; box_of 2 3 4 5])
    /\ sublist out [1; 2].
Proof.
  destruct (C7_inside (init_heap ++ [box_of (-1) 0 1 1; box_of 2 3 4 5]) [1; 2]
              [box_of (-1) 0 1 1; box_of 2 3 4 5] (box_of 0 0 10 10))
    as (out & Hrun & _ & Hsub & _).
  - repeat constructor.
  - exists out. split; [exact Hrun|exact Hsub].
Defined.

Lemma purge_keep_text (b : Box) (t : unicode) (c : string) :
  text b = Some t -> classname b = Some c ->
  purge_keep b = Ok (negb (bool_decide (strip t = []))
                     || negb (bool_decide (c = LTTextLineHorizontal))).
Proof.
  intros Ht Hc. unfold purge_keep. rewrite Ht, Hc. simpl.
  destruct (bool_decide (strip t = [])); reflexivity.
Qed.

(** C8: on boxes that have text and a class name, [purge_empty_text]
    leaves the store as it is and returns, in the order of the input,
    exactly the boxes whose stripped text is not empty or whose class
    name is not LTTextLineHorizontal: an empty text with another class
    name stays, a blank text line goes, also one of no-break and em
    spaces. *)
Theorem C8_purge_empty_text (h : heap) (bl : BoxList) (boxes : list Box) :
  points_to h bl boxes ->
  Forall (fun b => is_Some (text b) /\ is_Some (classname b)) boxes ->
  exists out : BoxList,
    purge_empty_text bl h = (Ok out, h)
    /\ out = (filter (fun lb : nat * Box =>
                strip <$> text lb.2 <> Some []
                \/ classname lb.2 <> Some LTTextLineHorizontal)
              (zip bl boxes)).*1
    /\ sublist out bl
    /\ purge_empty_text [1; 2; 3; 4]
         (init_heap ++ [labelled [] "LTRect"; labelled (u "  ") LTTextLineHorizontal;
                        labelled (u " a ") LTTextLineHorizontal;
                        labelled [0xA0%N; 0x2003%N; 0x85%N] LTTextLineHorizontal])
       = (Ok [1; 3],
          init_heap ++ [labelled [] "LTRect"; labelled (u "  ") LTTextLineHorizontal;
                        labelled (u " a ") LTTextLineHorizontal;
                        labelled [0xA0%N; 0x2003%N; 0x85%N] LTTextLineHorizontal]).
Proof.
  intros Hp Hall.
  set (p := fun b : Box =>
              negb (bool_decide (strip <$> text b = Some []))
              || negb (bool_decide (classname b = Some LTTextLineHorizontal))).
  eexists. split; [|split; [reflexivity|split]].
  - unfold purge_empty_text.
    rewrite (select_run _ p h bl boxes Hp).
    + f_equal. f_equal. f_equal. apply list_filter_iff.
      intros [l b]. unfold p. simpl.
      rewrite orb_true_iff, !negb_true_iff, !bool_decide_eq_false. tauto.
    + eapply Forall_impl; [exact Hall|].
      intros b [[t Ht] [c Hc]]. rewrite (purge_keep_text b t c Ht Hc).
      unfold p. rewrite Ht, Hc. simpl. f_equal. f_equal.
      * f_equal. apply bool_decide_ext. split; congruence.
      * f_equal. apply bool_decide_ext. split; congruence.
  - apply filtered_sublist with (h := h). exact Hp.
  - vm_compute. reflexivity.
Qed.

Lemma C8_witness :
  exists out : BoxList,
    purge_empty_text [1; 2; 3]
      (init_heap ++ [labelled [] "LTRect"; labelled (u "  ") LTTextLineHorizontal;
                     labelled [0xA0%N; 0x2003%N] LTTextLineHorizontal])
    = (Ok out, init_heap ++ [labelled [] "LTRect";
                             labelled (u "  ") LTTextLineHorizontal;
                             labelled [0xA0%N; 0x2003%N] LTTextLineHorizontal])
    /\ out = [1]
    /\ sublist out [1; 2; 3].
Proof.
  destruct (C8_purge_empty_text
              (init_heap ++ [labelled [] "LTRect";
                             labelled (u "  ") LTTextLineHorizontal;
                             labelled [0xA0%N; 0x2003%N] LTTextLineHorizontal])
              [1; 2; 3]
              [labelled [] "LTRect"; labelled (u "  ") LTTextLineHorizontal;
               labelled [0xA0%N; 0x2003%N] LTTextLineHorizontal])
    as (out & Hrun & Hout & Hsub & _).
  - repeat constructor.
  - repeat constructor; eexists; reflexivity.
  - exists out. split; [exact Hrun|]. split; [|exact Hsub].
    rewrite Hout. vm_compute. reflexivity.
Defined.

(** * Histograms *)

Import Hist.

Section HistogramFacts.

Lemma _rounder_total (val : num) (tol : Qc) :
  tol <> Q2Qc 0 -> exists k, _rounder val tol = Ok k.
Proof.
  intros Hne. unfold _rounder.
  destruct (decide (tol = Q2Qc 0)); [contradiction|]. eexists. reflexivity.
Qed.

Lemma dict_get_None (d : dict) (k : num) : dict_get d k = None <-> k ∉ d.*1.
Proof.
  induction d as [|[k' v] d IH]; simpl.
  - split; [intros _; apply not_elem_of_nil|reflexivity].
  - rewrite not_elem_of_cons. destruct (decide (k = k')) as [->|Hne].
    + split; [discriminate|]. intros [Hc _]. contradiction.
    + rewrite IH. tauto.
Qed.

Lemma dict_set_fresh (d : dict) (k : num) (v : Z) :
  k ∉ d.*1 -> dict_set d k v = d ++ [(k, v)].
Proof.
  induction d as [|[k' v'] d IH]; simpl; [reflexivity|].
  rewrite not_elem_of_cons. intros [Hne Hnin].
  destruct (decide (k = k')); [contradiction|]. rewrite (IH Hnin). reflexivity.
Qed.

Lemma dict_set_keys (d : dict) (k x : num) (v : Z) :
  x ∈ (dict_set d k v).*1 -> x = k \/ x ∈ d.*1.
Proof.
  induction d as [|[k' v'] d IH]; simpl.
  - rewrite list_elem_of_singleton. auto.
  - destruct (decide (k = k')) as [->|Hne]; simpl; [auto|].
    rewrite !elem_of_cons. intros [->|Hin]; [auto|].
    destruct (IH Hin); auto.
Qed.

Lemma dict_set_tidy (P : num -> Prop) (d : dict) (k : num) (v : Z) :
  tidy P d -> P k -> (0 < v)%Z -> tidy P (dict_set d k v).
Proof.
  intros [Hnd Hall] Hk Hv.
  induction d as [|[k' v'] d IH]; simpl.
  - split; [apply NoDup_singleton|]. repeat constructor; assumption.
  - apply NoDup_cons in Hnd as [Hnin Hnd].
    apply Forall_cons in Hall as [[Hk' Hv'] Hall].
    destruct (decide (k = k')) as [->|Hne].
    + split; [apply NoDup_cons; split; assumption|].
      constructor; [split; assumption|exact Hall].
    + destruct (IH Hnd Hall) as [Hnd' Hall']. split.
      * simpl. apply NoDup_cons. split; [|exact Hnd'].
        intros Hin. apply dict_set_keys in Hin as [->|Hin]; contradiction.
      * constructor; [split; assumption|exact Hall'].
Qed.

Lemma fold_left_tidy (P : num -> Prop) (f : dict -> num * Z -> dict)
    (l : dict) (acc : dict) :
  (forall a x, x ∈ l -> tidy P a -> tidy P (f a x)) ->
  tidy P acc -> tidy P (fold_left f l acc).
Proof.
  revert acc. induction l as [|x l IH]; intros acc Hf Hacc; simpl; [exact Hacc|].
  apply IH.
  - intros a y Hy. apply Hf. apply list_elem_of_further, Hy.
  - apply Hf; [apply list_elem_of_here|exact Hacc].
Qed.

Lemma Counter_add_tidy (P : num -> Prop) (a b : counter) :
  Forall (fun kv => P kv.1) (items a) ->
  Forall (fun kv => P kv.1) (items b) ->
  tidy P (items (Counter_add a b)).
Proof.
  intros Ha Hb. unfold Counter_add. simpl.
  apply fold_left_tidy.
  - intros acc x Hx Hacc.
    destruct (negb (dict_mem (items a) x.1) && (0 <? x.2)%Z) eqn:E; [|exact Hacc].
    apply andb_true_iff in E as [_ E]. apply Z.ltb_lt in E.
    apply dict_set_tidy; [exact Hacc| |exact E].
    rewrite Forall_forall in Hb. apply Hb, Hx.
  - apply fold_left_tidy.
    + intros acc x Hx Hacc.
      destruct (0 <? x.2 + count_of (items b) x.1)%Z eqn:E; [|exact Hacc].
      apply Z.ltb_lt in E.
      apply dict_set_tidy; [exact Hacc| |exact E].
      rewrite Forall_forall in Ha. apply Ha, Hx.
    + split; [apply NoDup_nil_2|constructor].
Qed.

(** Adding one fresh key with a positive count appends it. *)
Lemma Counter_add_fresh (P : num -> Prop) (c : counter) (cl : pyclass)
    (k : num) (n : Z) :
  tidy P (items c) -> k ∉ (items c).*1 -> (0 < n)%Z ->
  Counter_add c {| cls := cl; items := [(k, n)] |}
    = {| cls := CounterClass; items := items c ++ [(k, n)] |}.
Proof.
  intros [Hnd Hall] Hk Hn. unfold Counter_add. simpl. f_equal.
  assert (Hfold : forall pre acc,
    NoDup (acc ++ pre).*1 -> Forall (fun kv => P kv.1 /\ (0 < kv.2)%Z) pre ->
    k ∉ pre.*1 ->
    fold_left (fun result (item : num * Z) =>
                 if (0 <? item.2 + count_of [(k, n)] item.1)%Z
                 then dict_set result item.1 (item.2 + count_of [(k, n)] item.1)
                 else result) pre acc = acc ++ pre).
  { induction pre as [|[e cnt] pre IH]; intros acc Hnd' Hall' Hk'; cbn [fold_left].
    - rewrite app_nil_r. reflexivity.
    - apply Forall_cons in Hall' as [[_ Hcnt] Hall']. simpl in Hcnt.
      rewrite fmap_cons, not_elem_of_cons in Hk'. destruct Hk' as [Hne Hk'].
      simpl in Hne.
      assert (E0 : count_of [(k, n)] e = 0%Z).
      { unfold count_of. simpl.
        destruct (decide (e = k)) as [Heq|_]; [|reflexivity].
        exfalso. apply Hne. symmetry. exact Heq. }
      cbn [fst snd]. rewrite E0, Z.add_0_r.
      destruct (0 <? cnt)%Z eqn:E; [|apply Z.ltb_ge in E; lia].
      rewrite dict_set_fresh.
      + rewrite IH; [rewrite <- app_assoc; reflexivity| |exact Hall'|exact Hk'].
        rewrite <- app_assoc. exact Hnd'.
      + rewrite fmap_app in Hnd'. apply NoDup_app in Hnd' as (_ & Hd & _).
        intros Hin. apply (Hd _ Hin). simpl. apply list_elem_of_here. }
  rewrite (Hfold (items c) [] Hnd Hall Hk). simpl.
  unfold dict_mem. apply dict_get_None in Hk. rewrite Hk. simpl.
  destruct (0 <? n)%Z eqn:E; [|apply Z.ltb_ge in E; lia].
  apply dict_set_fresh. apply dict_get_None. exact Hk.
Qed.

Lemma rounder_loop_total (tol : Qc) (todo : dict) (c : counter) :
  tol <> Q2Qc 0 -> exists r, rounder_loop c todo tol = Ok r.
Proof.
  intros Hne. revert c. induction todo as [|[k n] todo IH]; intros c; simpl.
  - eexists. reflexivity.
  - destruct (_rounder_total k tol Hne) as [k' ->]. apply IH.
Qed.

Lemma rounder_loop_tidy (tol : Qc) (todo : dict) (c r : counter) :
  tidy (fun _ => True) (items c) ->
  rounder_loop c todo tol = Ok r ->
  tidy (fun _ => True) (items r).
Proof.
  revert c. induction todo as [|[k n] todo IH]; intros c Hc; simpl.
  - intros [= <-]. exact Hc.
  - destruct (_rounder k tol) as [k'|e] eqn:Ek; [|discriminate].
    apply IH. apply Counter_add_tidy.
    + destruct Hc as [_ Hall]. eapply Forall_impl; [exact Hall|].
      intros kv [Hkv _]. exact Hkv.
    + constructor; [|constructor]. exact I.
Qed.

Lemma rounder_loop_plain (todo : dict) (c r : counter) (tol : Qc) :
  todo <> [] -> rounder_loop c todo tol = Ok r -> cls r = CounterClass.
Proof.
  revert c. induction todo as [|[k n] todo IH]; intros c Hne; [congruence|].
  simpl. destruct (_rounder k tol) as [k'|e]; [|discriminate].
  destruct todo as [|x todo'].
  - simpl. intros [= <-]. reflexivity.
  - apply IH. discriminate.
Qed.

(** But the object that [rounder] returns for a histogram with entries
    is a plain [Counter], and that has no [rounder]. *)
Lemma rounder_twice_raises (self r : counter) (tol : Qc) :
  items self <> [] ->
  rounder self tol = Ok r ->
  cls r = CounterClass /\ rounder r tol = Raise AttributeError.
Proof.
  unfold rounder at 1. destruct (cls self); [discriminate|]. intros Hne Hr.
  pose proof (rounder_loop_plain _ _ _ _ Hne Hr) as Hc.
  split; [exact Hc|]. unfold rounder. rewrite Hc. reflexivity.
Qed.

End HistogramFacts.

(** C5, on the code: rounding the histogram with the one entry 1.0 to
    the tolerance 1 gives a plain [Counter] with that entry, and calling
    [rounder] on the result raises [AttributeError]; the second rounding
    the claim compares with never returns. *)
Theorem C5_rounder_twice_at_one_edge :
  rounder one_edge (Q2Qc 1)
    = Ok {| cls := CounterClass; items := [(of_Z 1, 1%Z)] |}
  /\ (match rounder one_edge (Q2Qc 1) with
      | Ok r => rounder r (Q2Qc 1)
      | Raise e => Raise e
      end) = Raise AttributeError.
Proof.
  assert (E : rounder one_edge (Q2Qc 1)
              = Ok {| cls := CounterClass; items := [(of_Z 1, 1%Z)] |}).
  { assert (K : _rounder (of_Z 1) (Q2Qc 1) = Ok (of_Z 1)).
    { unfold _rounder.
      destruct (decide (Q2Qc 1 = Q2Qc 0)) as [Hc|_]; [discriminate Hc|].
      f_equal. vm_compute. f_equal. apply Qc_is_canon. reflexivity. }
    unfold rounder, one_edge. cbn [cls items rounder_loop]. rewrite K.
    rewrite (Counter_add_fresh (fun _ => True)).
    - reflexivity.
    - split; [apply NoDup_nil_2|constructor].
    - apply not_elem_of_nil.
    - reflexivity. }
  split; [exact E|]. rewrite E. reflexivity.
Qed.

(** * Clipping computes the intersection *)

Section ClipIntersection.
Context {A : Type} `{RectLike A}.

(** The folded rectangle lies within the start and within every
    rectangle met. *)
Lemma fold_clip_within (rs : list A) (acc : Rectangle) :
  (Num.le (x1 acc) (x1 (fold_left clip_step rs acc))
   /\ Num.le (x2 (fold_left clip_step rs acc)) (x2 acc)
   /\ Num.le (y1 acc) (y1 (fold_left clip_step rs acc))
   /\ Num.le (y2 (fold_left clip_step rs acc)) (y2 acc))
  /\ Forall (fun a =>
       Num.le (left a) (x1 (fold_left clip_step rs acc))
       /\ Num.le (x2 (fold_left clip_step rs acc)) (right a)
       /\ Num.le (top a) (y1 (fold_left clip_step rs acc))
       /\ Num.le (y2 (fold_left clip_step rs acc)) (bottom a)) rs.
Proof.
  revert acc. induction rs as [|r rs IH]; intros acc; simpl.
  - split; [|constructor]. unfold Num.le. rewrite !leb_refl. auto.
  - destruct (IH (clip_step acc r)) as [(Ha & Hb & Hc & Hd) Hall].
    simpl in Ha, Hb, Hc, Hd. unfold Num.le in *. split; [|constructor].
    + repeat split.
      * eapply leb_trans; [apply max_ge_l|exact Ha].
      * eapply leb_trans; [exact Hb|apply min_le_l].
      * eapply leb_trans; [apply max_ge_l|exact Hc].
      * eapply leb_trans; [exact Hd|apply min_le_l].
    + repeat split.
      * eapply leb_trans; [apply max_ge_r|exact Ha].
      * eapply leb_trans; [exact Hb|apply min_le_r].
      * eapply leb_trans; [apply max_ge_r|exact Hc].
      * eapply leb_trans; [exact Hd|apply min_le_r].
    + exact Hall.
Qed.

(** Whatever lies within the start and within every rectangle lies within
    the folded rectangle. *)
Lemma fold_clip_greatest (rs : list A) (acc : Rectangle) (l t r b : num) :
  Num.le (x1 acc) l -> Num.le r (x2 acc) ->
  Num.le (y1 acc) t -> Num.le b (y2 acc) ->
  Forall (fun a => Num.le (left a) l /\ Num.le r (right a)
                   /\ Num.le (top a) t /\ Num.le b (bottom a)) rs ->
  Num.le (x1 (fold_left clip_step rs acc)) l
  /\ Num.le r (x2 (fold_left clip_step rs acc))
  /\ Num.le (y1 (fold_left clip_step rs acc)) t
  /\ Num.le b (y2 (fold_left clip_step rs acc)).
Proof.
  revert acc. induction rs as [|a rs IH]; intros acc Hl Hr Ht Hb Hall; simpl.
  - auto.
  - apply Forall_cons in Hall as [(Hal & Har & Hat & Hab) Hall].
    unfold Num.le in *.
    apply IH; simpl; unfold Num.le; try exact Hall.
    + apply max_lub; assumption.
    + apply min_glb; assumption.
    + apply max_lub; assumption.
    + apply min_glb; assumption.
Qed.

Lemma not_inverted_le (r : Rectangle) :
  inverted r = false <-> Num.le (x1 r) (x2 r) /\ Num.le (y1 r) (y2 r).
Proof.
  unfold inverted, Num.le. rewrite orb_false_iff, !gtb_leb, !negb_false_iff.
  reflexivity.
Qed.

End ClipIntersection.

(** X1: with at least one rectangle, a box that [clip] returns and that
    is not the sentinel lies inside [self] and inside every rectangle,
    and every box that lies inside [self] and inside every rectangle lies
    inside it: it is the intersection. *)
Theorem X1_clip_is_intersection
    {A : Type} `{RectLike A} (h h' : heap) (self l : loc) (b : Box) (rs : list A) :
  h !! self = Some b ->
  rs <> [] ->
  clip self rs h = (Ok l, h') ->
  l <> empty_box ->
  exists c : Box,
    h' !! l = Some c
    /\ is_in_rect b c = true
    /\ Forall (fun a => is_in_rect a c = true) rs
    /\ (forall d : Box,
          is_in_rect b d = true ->
          Forall (fun a => is_in_rect a d = true) rs ->
          is_in_rect c d = true).
Proof.
  intros Hb Hne Hrun Hl.
  rewrite (clip_run h self b rs Hb), (clip_loop_fold rs _ Hne) in Hrun.
  destruct (inverted (fold_left clip_step rs (rect b))) eqn:Einv.
  { injection Hrun as <- <-. contradiction. }
  injection Hrun as <- <-.
  set (c := fold_left clip_step rs (rect b)) in *.
  exists (Box_new c None None None).
  split; [apply list_lookup_middle; reflexivity|].
  apply not_inverted_le in Einv as [Hx Hy].
  destruct (fold_clip_within rs (rect b)) as [(Ha & Hb' & Hc & Hd) Hall].
  fold c in Ha, Hb', Hc, Hd, Hall.
  split; [|split].
  - apply is_in_rect_iff. simpl. auto 10.
  - eapply Forall_impl; [exact Hall|].
    intros a (H1 & H2 & H3 & H4). apply is_in_rect_iff. simpl. auto 10.
  - intros d Hd' Hall'.
    apply is_in_rect_iff in Hd' as (D1 & D2 & D3 & D4 & D5 & D6).
    destruct (fold_clip_greatest rs (rect b) (left d) (top d) (right d) (bottom d))
      as (G1 & G2 & G3 & G4); try assumption.
    + eapply Forall_impl; [exact Hall'|].
      intros a Ha'. apply is_in_rect_iff in Ha'. tauto.
    + fold c in G1, G2, G3, G4. apply is_in_rect_iff. simpl. auto 10.
Qed.

Lemma X1_witness :
  exists c : Box,
    returned (clip 1 [box_of 2 2 20 20; box_of 0 0 5 5]
                (init_heap ++ [box_of 0 0 10 10])) = Some c
    /\ is_in_rect (box_of 0 0 10 10) c = true
    /\ is_in_rect (box_of 0 0 5 5) c = true.
Proof.
  destruct (X1_clip_is_intersection
              (init_heap ++ [box_of 0 0 10 10])
              (init_heap ++ [box_of 0 0 10 10] ++ [box_of 2 2 5 5])
              1 2 (box_of 0 0 10 10)
              [box_of 2 2 20 20; box_of 0 0 5 5])
    as (c & Hc & Hin & Hall & _).
  - reflexivity.
  - discriminate.
  - vm_compute. reflexivity.
  - discriminate.
  - exists c. split; [|split; [exact Hin|]].
    + assert (E : clip 1 [box_of 2 2 20 20; box_of 0 0 5 5]
                    (init_heap ++ [box_of 0 0 10 10])
                  = (Ok 2, init_heap ++ [box_of 0 0 10 10] ++ [box_of 2 2 5 5]))
        by (vm_compute; reflexivity).
      unfold returned. rewrite E. exact Hc.
    + apply Forall_cons in Hall as [_ Hall].
      apply Forall_cons in Hall as [Hall _]. exact Hall.
Defined.

(** X2: with at least one rectangle, [clip] returns the sentinel exactly
    when no box at all lies inside [self] and inside every rectangle. *)
Theorem X2_clip_sentinel_iff_disjoint
    {A : Type} `{RectLike A} (h : heap) (self : loc) (b : Box) (rs : list A) :
  h !! self = Some b ->
  rs <> [] ->
  is_sentinel (clip self rs h) = true <->
  ~ exists d : Box,
      is_in_rect b d = true /\ Forall (fun a => is_in_rect a d = true) rs.
Proof.
  intros Hb Hne.
  assert (Hlen : length h <> empty_box).
  { apply lookup_lt_Some in Hb. unfold empty_box. lia. }
  rewrite (clip_run h self b rs Hb), (clip_loop_fold rs _ Hne).
  set (c := fold_left clip_step rs (rect b)).
  destruct (fold_clip_within rs (rect b)) as [(Ha & Hb' & Hc & Hd) Hall].
  fold c in Ha, Hb', Hc, Hd, Hall.
  destruct (inverted c) eqn:Einv; unfold is_sentinel; simpl.
  - split; [intros _|intros _; reflexivity].
    intros (d & Hd' & Hall').
    apply is_in_rect_iff in Hd' as (D1 & D2 & D3 & D4 & D5 & D6).
    destruct (fold_clip_greatest rs (rect b) (left d) (top d) (right d) (bottom d))
      as (G1 & G2 & G3 & G4); try assumption.
    + eapply Forall_impl; [exact Hall'|].
      intros a Ha'. apply is_in_rect_iff in Ha'. tauto.
    + fold c in G1, G2, G3, G4.
      assert (Hn : inverted c = false).
      { apply not_inverted_le. unfold Num.le in *. split.
        - eapply leb_trans; [exact G1|]. eapply leb_trans; [exact D2|exact G2].
        - eapply leb_trans; [exact G3|]. eapply leb_trans; [exact D5|exact G4]. }
      congruence.
  - rewrite (bool_decide_eq_false_2 _ Hlen). split; [discriminate|].
    intros Hno. exfalso. apply Hno.
    apply not_inverted_le in Einv as [Hx Hy].
    exists (Box_new c None None None). split.
    + apply is_in_rect_iff. simpl. auto 10.
    + eapply Forall_impl; [exact Hall|].
      intros a (H1 & H2 & H3 & H4). apply is_in_rect_iff. simpl. auto 10.
Qed.

Lemma X2_witness :
  is_sentinel (clip 1 [box_of 20 20 30 30] (init_heap ++ [box_of 0 0 10 10])) = true
  /\ ~ exists d : Box,
        is_in_rect (box_of 0 0 10 10) d = true
        /\ Forall (fun a => is_in_rect a d = true) [box_of 20 20 30 30].
Proof.
  pose proof (X2_clip_sentinel_iff_disjoint
                (init_heap ++ [box_of 0 0 10 10]) 1 (box_of 0 0 10 10)
                [box_of 20 20 30 30] eq_refl ltac:(discriminate)) as [H1 _].
  assert (E : is_sentinel (clip 1 [box_of 20 20 30 30]
                             (init_heap ++ [box_of 0 0 10 10])) = true)
    by (vm_compute; reflexivity).
  split; [exact E|exact (H1 E)].
Defined.

(** * Filters over box lists, and bounds *)

Lemma points_to_app (h : heap) (extra : list Box) (bl : BoxList) (boxes : list Box) :
  points_to h bl boxes -> points_to (h ++ extra) bl boxes.
Proof.
  intros Hp. eapply Forall2_impl; [exact Hp|].
  intros l b Hl. simpl. rewrite lookup_app_l; [exact Hl|].
  apply lookup_lt_Some in Hl. exact Hl.
Qed.

Lemma pairs_points_to (h : heap) (F : list (nat * Box)) :
  Forall (fun lb : nat * Box => h !! lb.1 = Some lb.2) F ->
  points_to h F.*1 F.*2.
Proof.
  induction 1 as [|[l b] F Hl _ IH]; [constructor|].
  constructor; [exact Hl|exact IH].
Qed.

Lemma points_to_pairs (h : heap) (bl : BoxList) (boxes : list Box) :
  points_to h bl boxes ->
  Forall (fun lb : nat * Box => h !! lb.1 = Some lb.2) (zip bl boxes)
  /\ (zip bl boxes).*1 = bl /\ (zip bl boxes).*2 = boxes.
Proof.
  induction 1 as [|l b bl boxes Hl _ (IH1 & IH2 & IH3)]; csimpl.
  - split; [constructor|split; reflexivity].
  - split; [constructor; assumption|]. rewrite IH2, IH3. split; reflexivity.
Qed.

Lemma Forall_filter_keep {X : Type} (P Q : X -> Prop) `{!forall x, Decision (P x)}
    (l : list X) :
  Forall Q l -> Forall Q (filter P l).
Proof.
  rewrite !Forall_forall. intros HQ x Hx.
  apply list_elem_of_filter in Hx as [_ Hx]. apply HQ, Hx.
Qed.

Lemma select_pairs (keep : Box -> res bool) (p : Box -> bool)
    (h : heap) (F : list (nat * Box)) :
  Forall (fun lb : nat * Box => h !! lb.1 = Some lb.2) F ->
  Forall (fun lb : nat * Box => keep lb.2 = Ok (p lb.2)) F ->
  select keep F.*1 h = (Ok (filter (fun lb : nat * Box => p lb.2 = true) F).*1, h).
Proof.
  intros Hl Hk.
  pose proof (pairs_points_to h F Hl) as Hp.
  rewrite (select_run keep p h _ _ Hp).
  - rewrite zip_fst_snd. reflexivity.
  - clear Hl Hp. induction Hk as [|[l b] F Hb _ IH]; constructor; assumption.
Qed.

Lemma select_all (keep : Box -> res bool) (h : heap) (bl : BoxList) (boxes : list Box) :
  points_to h bl boxes ->
  Forall (fun b => keep b = Ok true) boxes ->
  select keep bl h = (Ok bl, h).
Proof.
  induction 1 as [|l b bl boxes Hl _ IH]; intros Hk; [reflexivity|].
  apply Forall_cons in Hk as [Hb Hk].
  simpl. unfold bind, load, lift. rewrite Hl, Hb.
  fold (bind (A:=list nat) (B:=list nat)). unfold bind. rewrite (IH Hk).
  reflexivity.
Qed.

(** The first error met stops the generator; the store is as it was. *)
Lemma select_raise (keep : Box -> res bool) (e : exn)
    (h : heap) (bl : BoxList) (boxes : list Box) :
  points_to h bl boxes ->
  Forall (fun b => keep b = Raise e \/ exists k, keep b = Ok k) boxes ->
  Exists (fun b => keep b = Raise e) boxes ->
  select keep bl h = (Raise e, h).
Proof.
  induction 1 as [|l b bl boxes Hl _ IH]; intros Hall Hex.
  - inversion Hex.
  - apply Forall_cons in Hall as [Hb Hall].
    simpl. unfold bind, load, lift. rewrite Hl.
    destruct Hb as [Hb|[k Hb]]; rewrite Hb; [reflexivity|].
    fold (bind (A:=list nat) (B:=list nat)). unfold bind.
    rewrite IH; [reflexivity|exact Hall|].
    apply Exists_cons in Hex as [Hex|Hex]; [congruence|exact Hex].
Qed.

Lemma bounds_run (h : heap) (l : loc) (bl : BoxList) (b : Box) (boxes : list Box) :
  points_to h (l :: bl) (b :: boxes) ->
  bounds (l :: bl) h =
    (Ok (length h),
     h ++ [Box_new {| x1 := fold_left Num.min (map left boxes) (left b);
                      y1 := fold_left Num.min (map top boxes) (top b);
                      x2 := fold_left Num.max (map right boxes) (right b);
                      y2 := fold_left Num.max (map bottom boxes) (bottom b) |}
                   None None None]).
Proof.
  intros Hp'. unfold bounds.
  rewrite (bind_ok _ _ _ _ _ (collect_run left h _ _ Hp')).
  rewrite (bind_ok (lift (py_min (map left (b :: boxes)))) _ h h _ eq_refl).
  rewrite (bind_ok _ _ _ _ _ (collect_run top h _ _ Hp')).
  rewrite (bind_ok (lift (py_min (map top (b :: boxes)))) _ h h _ eq_refl).
  rewrite (bind_ok _ _ _ _ _ (collect_run right h _ _ Hp')).
  rewrite (bind_ok (lift (py_max (map right (b :: boxes)))) _ h h _ eq_refl).
  rewrite (bind_ok _ _ _ _ _ (collect_run bottom h _ _ Hp')).
  rewrite (bind_ok (lift (py_max (map bottom (b :: boxes)))) _ h h _ eq_refl).
  reflexivity.
Qed.

Lemma Forall_map_elem {X : Type} (f : X -> num) (P : num -> Prop) (l : list X) (x : X) :
  Forall P (map f l) -> x ∈ l -> P (f x).
Proof.
  rewrite Forall_map, Forall_forall. intros HP Hx. apply HP, Hx.
Qed.

Lemma elem_map_inv {X : Type} (f : X -> num) (l : list X) (v : num) :
  v ∈ map f l -> exists x, x ∈ l /\ v = f x.
Proof.
  rewrite list_elem_of_In, in_map_iff. intros (x & <- & Hx).
  exists x. rewrite list_elem_of_In. split; [exact Hx|reflexivity].
Qed.

(** X3: when no box of a list that is not empty is inverted, the box
    that [bounds] returns encloses them all, so that [inside] with that
    box as the window keeps the whole list; and every window that
    encloses them all encloses the bounds. *)
Theorem X3_bounds_encloses (h : heap) (bl : BoxList) (boxes : list Box) :
  points_to h bl boxes ->
  bl <> [] ->
  Forall (fun b => inverted (rect b) = false) boxes ->
  exists (l : loc) (h' : heap) (w : Box),
    bounds bl h = (Ok l, h')
    /\ h' !! l = Some w
    /\ inside bl w h' = (Ok bl, h')
    /\ (forall v : Box,
          Forall (fun b => is_in_rect v b = true) boxes -> is_in_rect v w = true).
Proof.
  intros Hp Hne Hinv.
  destruct Hp as [|l b bl boxes Hl Hp]; [congruence|].
  assert (Hp' : points_to h (l :: bl) (b :: boxes)) by (constructor; assumption).
  rewrite (bounds_run h l bl b boxes Hp').
  pose proof (fold_min_least (map left boxes) (left b)) as [Lin Lall].
  pose proof (fold_min_least (map top boxes) (top b)) as [Tin Tall].
  pose proof (fold_max_greatest (map right boxes) (right b)) as [Rin Rall].
  pose proof (fold_max_greatest (map bottom boxes) (bottom b)) as [Bin Ball].
  change (left b :: map left boxes) with (map left (b :: boxes)) in *.
  change (top b :: map top boxes) with (map top (b :: boxes)) in *.
  change (right b :: map right boxes) with (map right (b :: boxes)) in *.
  change (bottom b :: map bottom boxes) with (map bottom (b :: boxes)) in *.
  eexists _, _, _. split; [reflexivity|].
  split; [apply list_lookup_middle; reflexivity|]. split.
  - apply (select_all _ _ _ (b :: boxes)); [apply points_to_app, Hp'|].
    apply Forall_forall. intros d Hd. f_equal. apply is_in_rect_iff. simpl.
    rewrite Forall_forall in Hinv.
    destruct (proj1 (not_inverted_le (rect d)) (Hinv d Hd)) as [Hx Hy].
    repeat split.
    + exact (Forall_map_elem left _ _ d Lall Hd).
    + exact Hx.
    + exact (Forall_map_elem right (fun v => Num.le v _) _ d Rall Hd).
    + exact (Forall_map_elem top _ _ d Tall Hd).
    + exact Hy.
    + exact (Forall_map_elem bottom (fun v => Num.le v _) _ d Ball Hd).
  - intros v Hv. rewrite Forall_forall in Hv.
    apply elem_map_inv in Lin as (dl & Hdl & El).
    apply elem_map_inv in Tin as (dt & Hdt & Et).
    apply elem_map_inv in Rin as (dr & Hdr & Er).
    apply elem_map_inv in Bin as (db & Hdb & Eb).
    pose proof (proj1 (is_in_rect_iff v dl) (Hv dl Hdl)) as (L1 & _).
    pose proof (proj1 (is_in_rect_iff v dt) (Hv dt Hdt)) as (_ & _ & _ & T1 & _).
    pose proof (proj1 (is_in_rect_iff v dr) (Hv dr Hdr)) as (_ & _ & R1 & _).
    pose proof (proj1 (is_in_rect_iff v db) (Hv db Hdb)) as (_ & _ & _ & _ & _ & B1).
    pose proof (proj1 (is_in_rect_iff v b) (Hv b (list_elem_of_here _ _)))
      as (_ & X & _ & _ & Y & _).
    assert (Hb : b ∈ b :: boxes) by apply list_elem_of_here.
    apply is_in_rect_iff. simpl. unfold Num.le in *. repeat split.
    + rewrite <- El in L1. exact L1.
    + eapply leb_trans; [exact (Forall_map_elem left _ _ b Lall Hb)|].
      eapply leb_trans; [exact X|].
      exact (Forall_map_elem right (fun v => Num.le v _) _ b Rall Hb).
    + rewrite <- Er in R1. exact R1.
    + rewrite <- Et in T1. exact T1.
    + eapply leb_trans; [exact (Forall_map_elem top _ _ b Tall Hb)|].
      eapply leb_trans; [exact Y|].
      exact (Forall_map_elem bottom (fun v => Num.le v _) _ b Ball Hb).
    + rewrite <- Eb in B1. exact B1.
Qed.

Lemma X3_witness :
  exists (l : loc) (h' : heap) (w : Box),
    bounds [1; 2] (init_heap ++ [box_of 0 0 2 2; box_of 1 1 5 5]) = (Ok l, h')
    /\ h' !! l = Some w
    /\ inside [1; 2] w h' = (Ok [1; 2], h').
Proof.
  destruct (X3_bounds_encloses (init_heap ++ [box_of 0 0 2 2; box_of 1 1 5 5])
              [1; 2] [box_of 0 0 2 2; box_of 1 1 5 5])
    as (l & h' & w & H1 & H2 & H3 & _).
  - repeat constructor.
  - discriminate.
  - repeat constructor.
  - exists l, h', w. auto.
Defined.

(** X4: the bounds of the boxes that [inside] keeps lie inside the
    window. *)
Theorem X4_bounds_of_inside {A : Type} `{RectLike A}
    (h : heap) (bl out : BoxList) (boxes : list Box) (rect : A) :
  points_to h bl boxes ->
  inside bl rect h = (Ok out, h) ->
  out <> [] ->
  exists (l : loc) (h' : heap) (w : Box),
    bounds out h = (Ok l, h') /\ h' !! l = Some w /\ is_in_rect rect w = true.
Proof.
  intros Hp Hrun Hne.
  destruct (points_to_pairs h bl boxes Hp) as (Hlk & _ & _).
  unfold inside in Hrun.
  rewrite (select_run _ (is_in_rect rect) h bl boxes Hp) in Hrun
    by (apply Forall_forall; reflexivity).
  injection Hrun as <-.
  set (F := filter (fun lb : nat * Box => is_in_rect rect lb.2 = true) (zip bl boxes)) in *.
  assert (HF : Forall (fun lb : nat * Box => h !! lb.1 = Some lb.2) F)
    by (apply Forall_filter_keep; exact Hlk).
  assert (HP : Forall (fun lb : nat * Box => is_in_rect rect lb.2 = true) F).
  { apply Forall_forall. intros x Hx. apply list_elem_of_filter in Hx as [Hx _]. exact Hx. }
  pose proof (pairs_points_to h F HF) as HpF.
  assert (HPb : Forall (fun b => is_in_rect rect b = true) F.*2).
  { clear -HP. induction HP; constructor; assumption. }
  destruct F as [|[l0 b0] F']; [contradiction|]. csimpl in *.
  rewrite (bounds_run h l0 _ b0 _ HpF).
  pose proof (fold_min_least (map left F'.*2) (left b0)) as [Lin Lall].
  pose proof (fold_min_least (map top F'.*2) (top b0)) as [Tin Tall].
  pose proof (fold_max_greatest (map right F'.*2) (right b0)) as [Rin Rall].
  pose proof (fold_max_greatest (map bottom F'.*2) (bottom b0)) as [Bin Ball].
  change (left b0 :: map left F'.*2) with (map left (b0 :: F'.*2)) in *.
  change (top b0 :: map top F'.*2) with (map top (b0 :: F'.*2)) in *.
  change (right b0 :: map right F'.*2) with (map right (b0 :: F'.*2)) in *.
  change (bottom b0 :: map bottom F'.*2) with (map bottom (b0 :: F'.*2)) in *.
  eexists _, _, _. split; [reflexivity|].
  split; [apply list_lookup_middle; reflexivity|].
  rewrite Forall_forall in HPb.
  apply elem_map_inv in Lin as (dl & Hdl & El).
  apply elem_map_inv in Tin as (dt & Hdt & Et).
  apply elem_map_inv in Rin as (dr & Hdr & Er).
  apply elem_map_inv in Bin as (db & Hdb & Eb).
  pose proof (proj1 (is_in_rect_iff rect dl) (HPb dl Hdl)) as (L1 & _).
  pose proof (proj1 (is_in_rect_iff rect dt) (HPb dt Hdt)) as (_ & _ & _ & T1 & _).
  pose proof (proj1 (is_in_rect_iff rect dr) (HPb dr Hdr)) as (_ & _ & R1 & _).
  pose proof (proj1 (is_in_rect_iff rect db) (HPb db Hdb)) as (_ & _ & _ & _ & _ & B1).
  assert (Hb0 : b0 ∈ b0 :: F'.*2) by apply list_elem_of_here.
  pose proof (proj1 (is_in_rect_iff rect b0) (HPb b0 Hb0)) as (_ & X & _ & _ & Y & _).
  apply is_in_rect_iff. simpl. unfold Num.le in *. repeat split.
  - rewrite <- El in L1. exact L1.
  - eapply leb_trans; [exact (Forall_map_elem left _ _ b0 Lall Hb0)|].
    eapply leb_trans; [exact X|].
    exact (Forall_map_elem right (fun v => Num.le v _) _ b0 Rall Hb0).
  - rewrite <- Er in R1. exact R1.
  - rewrite <- Et in T1. exact T1.
  - eapply leb_trans; [exact (Forall_map_elem top _ _ b0 Tall Hb0)|].
    eapply leb_trans; [exact Y|].
    exact (Forall_map_elem bottom (fun v => Num.le v _) _ b0 Ball Hb0).
  - rewrite <- Eb in B1. exact B1.
Qed.

Lemma X4_witness :
  exists (l : loc) (h' : heap) (w : Box),
    bounds [2; 3] three_boxes = (Ok l, h')
    /\ h' !! l = Some w
    /\ is_in_rect (box_of 0 0 10 10) w = true.
Proof.
  apply (X4_bounds_of_inside three_boxes
           [1; 2; 3] [2; 3]
           [box_of (-1) 0 1 1; box_of 2 3 4 5; box_of 1 1 3 9] (box_of 0 0 10 10)).
  - repeat constructor.
  - vm_compute. reflexivity.
  - discriminate.
Defined.

(** Two filters one after the other keep what both keep. *)
Lemma select_then_select (k1 k2 : Box -> res bool) (p1 p2 : Box -> bool)
    (h : heap) (bl : BoxList) (boxes : list Box) :
  points_to h bl boxes ->
  Forall (fun b => k1 b = Ok (p1 b)) boxes ->
  Forall (fun b => k2 b = Ok (p2 b)) boxes ->
  exists out : BoxList,
    select k1 bl h = (Ok out, h)
    /\ select k2 out h
       = (Ok (filter (fun lb : nat * Box => p2 lb.2 = true /\ p1 lb.2 = true)
                     (zip bl boxes)).*1, h).
Proof.
  intros Hp H1 H2.
  destruct (points_to_pairs h bl boxes Hp) as (Hlk & _ & Hsnd).
  eexists. split; [apply (select_run k1 p1 h bl boxes Hp H1)|].
  rewrite (select_pairs k2 p2).
  - rewrite list_filter_filter. reflexivity.
  - apply Forall_filter_keep. exact Hlk.
  - apply Forall_filter_keep.
    rewrite <- Hsnd in H2. clear -H2.
    induction (zip bl boxes) as [|[l b] F IH]; [constructor|].
    csimpl in H2. apply Forall_cons in H2 as [Hb H2].
    constructor; [exact Hb|apply IH, H2].
Qed.

(** X5: filtering by two windows gives the same list in either order,
    and filtering the result again by either window changes nothing. *)
Theorem X5_inside_commutes {A : Type} `{RectLike A}
    (h : heap) (bl : BoxList) (boxes : list Box) (r1 r2 : A) :
  points_to h bl boxes ->
  exists a b c : BoxList,
    inside bl r1 h = (Ok a, h) /\ inside a r2 h = (Ok c, h)
    /\ inside bl r2 h = (Ok b, h) /\ inside b r1 h = (Ok c, h)
    /\ inside c r1 h = (Ok c, h) /\ inside c r2 h = (Ok c, h).
Proof.
  intros Hp.
  assert (Hk : forall r : A, Forall (fun b => Ok (is_in_rect r b) = Ok (is_in_rect r b)) boxes)
    by (intros r; apply Forall_forall; reflexivity).
  destruct (select_then_select _ _ (is_in_rect r1) (is_in_rect r2) h bl boxes Hp
              (Hk r1) (Hk r2)) as (a & Ha & Hac).
  destruct (select_then_select _ _ (is_in_rect r2) (is_in_rect r1) h bl boxes Hp
              (Hk r2) (Hk r1)) as (b & Hb & Hbc).
  destruct (points_to_pairs h bl boxes Hp) as (Hlk & _ & _).
  set (Fc := filter (fun lb : nat * Box =>
                       is_in_rect r2 lb.2 = true /\ is_in_rect r1 lb.2 = true)
                    (zip bl boxes)) in *.
  assert (Ebc : filter (fun lb : nat * Box =>
                          is_in_rect r1 lb.2 = true /\ is_in_rect r2 lb.2 = true)
                       (zip bl boxes) = Fc).
  { apply list_filter_iff. intros x. tauto. }
  rewrite Ebc in Hbc.
  assert (HFc : Forall (fun lb : nat * Box => h !! lb.1 = Some lb.2) Fc)
    by (apply Forall_filter_keep; exact Hlk).
  assert (Hboth : Forall (fun lb : nat * Box =>
                    is_in_rect r2 lb.2 = true /\ is_in_rect r1 lb.2 = true) Fc).
  { apply Forall_forall. intros x Hx. apply list_elem_of_filter in Hx as [Hx _]. exact Hx. }
  exists a, b, Fc.*1. unfold inside.
  repeat split; try assumption.
  - apply (select_all _ h _ Fc.*2 (pairs_points_to h Fc HFc)).
    clear -Hboth. induction Hboth as [|x F [_ Hx] _ IH]; constructor.
    + f_equal. exact Hx.
    + exact IH.
  - apply (select_all _ h _ Fc.*2 (pairs_points_to h Fc HFc)).
    clear -Hboth. induction Hboth as [|x F [Hx _] _ IH]; constructor.
    + f_equal. exact Hx.
    + exact IH.
Qed.

Lemma X5_witness :
  exists a b c : BoxList,
    inside [1; 2; 3] (box_of 0 0 10 10) three_boxes = (Ok a, three_boxes)
    /\ inside a (box_of 0 0 4 5) three_boxes = (Ok c, three_boxes)
    /\ inside [1; 2; 3] (box_of 0 0 4 5) three_boxes = (Ok b, three_boxes)
    /\ inside b (box_of 0 0 10 10) three_boxes = (Ok c, three_boxes)
    /\ inside c (box_of 0 0 10 10) three_boxes = (Ok c, three_boxes)
    /\ inside c (box_of 0 0 4 5) three_boxes = (Ok c, three_boxes).
Proof.
  apply (X5_inside_commutes three_boxes
           [1; 2; 3] [box_of (-1) 0 1 1; box_of 2 3 4 5; box_of 1 1 3 9]).
  repeat constructor.
Defined.

(** * [filterByType] and [purge_empty_text] *)

Lemma type_keep_named (names : list string) (b : Box) :
  is_Some (classname b) ->
  type_keep names b = Ok (bool_decide (classname b ∈ (Some <$> names))).
Proof.
  intros [c Hc]. unfold type_keep. rewrite Hc. f_equal.
  apply bool_decide_ext. rewrite list_elem_of_fmap. split.
  - intros Hin. exists c. split; [reflexivity|exact Hin].
  - intros (c' & [= ->] & Hin). exact Hin.
Qed.

Lemma filterByType_names (bl : BoxList) (n : string) (names : list string) :
  filterByType bl (Some (n :: names)) = select (type_keep (n :: names)) bl.
Proof. reflexivity. Qed.

(** X6: [filterByType] without a filter, or with an empty one, returns
    the list as it is, whatever the boxes are.  With names it keeps, in
    order and without touching the store, exactly the boxes whose class
    name is one of them, and it raises [AttributeError] when a box has no
    class name. *)
Theorem X6_filterByType (h : heap) (bl : BoxList) (boxes : list Box)
    (n : string) (names : list string) :
  points_to h bl boxes ->
  filterByType bl None h = (Ok bl, h)
  /\ filterByType bl (Some []) h = (Ok bl, h)
  /\ (Forall (fun b => is_Some (classname b)) boxes ->
      exists out : BoxList,
        filterByType bl (Some (n :: names)) h = (Ok out, h)
        /\ out = (filter (fun lb : nat * Box =>
                            classname lb.2 ∈ (Some <$> n :: names))
                         (zip bl boxes)).*1
        /\ sublist out bl)
  /\ (Exists (fun b => classname b = None) boxes ->
      filterByType bl (Some (n :: names)) h = (Raise AttributeError, h)).
Proof.
  intros Hp. split; [reflexivity|]. split; [reflexivity|]. split.
  - intros Hall. eexists. split; [|split; [reflexivity|]].
    + rewrite filterByType_names.
      rewrite (select_run _ (fun b => bool_decide (classname b ∈ (Some <$> n :: names)))
                 h bl boxes Hp).
      * f_equal. f_equal. f_equal. apply list_filter_iff.
        intros [l b]. simpl. apply bool_decide_eq_true.
      * eapply Forall_impl; [exact Hall|]. intros b Hb.
        apply type_keep_named, Hb.
    + apply filtered_sublist with (h := h). exact Hp.
  - intros Hex. rewrite filterByType_names.
    apply (select_raise _ _ h bl boxes Hp).
    + apply Forall_forall. intros b _. unfold type_keep.
      destruct (classname b); [right; eexists; reflexivity|left; reflexivity].
    + eapply Exists_impl; [exact Hex|]. intros b Hb. unfold type_keep.
      rewrite Hb. reflexivity.
Qed.

Lemma X6_witness :
  filterByType [1; 2] None (init_heap ++ [shape 0 0 1 1 "LTRect"; box_of 0 0 1 1])
    = (Ok [1; 2], init_heap ++ [shape 0 0 1 1 "LTRect"; box_of 0 0 1 1])
  /\ filterByType [1; 2] (Some ["LTRect"%string])
       (init_heap ++ [shape 0 0 1 1 "LTRect"; box_of 0 0 1 1])
     = (Raise AttributeError, init_heap ++ [shape 0 0 1 1 "LTRect"; box_of 0 0 1 1]).
Proof.
  destruct (X6_filterByType (init_heap ++ [shape 0 0 1 1 "LTRect"; box_of 0 0 1 1])
              [1; 2] [shape 0 0 1 1 "LTRect"; box_of 0 0 1 1] "LTRect" [])
    as (H1 & _ & _ & H4).
  - repeat constructor.
  - split; [exact H1|]. apply H4.
    apply Exists_cons_tl, Exists_cons_hd. reflexivity.
Defined.

(** X7: when every box has a class name, filtering by type and by a
    window gives the same list in either order. *)
Theorem X7_filterByType_inside_commute {A : Type} `{RectLike A}
    (h : heap) (bl : BoxList) (boxes : list Box)
    (flt : option (list string)) (rect : A) :
  points_to h bl boxes ->
  Forall (fun b => is_Some (classname b)) boxes ->
  exists a b c : BoxList,
    inside bl rect h = (Ok a, h) /\ filterByType a flt h = (Ok c, h)
    /\ filterByType bl flt h = (Ok b, h) /\ inside b rect h = (Ok c, h).
Proof.
  intros Hp Hall.
  assert (Hk : Forall (fun b => Ok (is_in_rect rect b) = Ok (is_in_rect rect b)) boxes)
    by (apply Forall_forall; reflexivity).
  assert (Hin : exists a, inside bl rect h = (Ok a, h)).
  { eexists. apply (select_run _ (is_in_rect rect) h bl boxes Hp Hk). }
  destruct flt as [[|n names]|].
  - destruct Hin as [a Ha]. exists a, bl, a. auto.
  - assert (Ht : Forall (fun b => type_keep (n :: names) b
                  = Ok (bool_decide (classname b ∈ (Some <$> n :: names)))) boxes).
    { eapply Forall_impl; [exact Hall|]. intros b Hb. apply type_keep_named, Hb. }
    destruct (select_then_select _ _ _ _ h bl boxes Hp Hk Ht) as (a & Ha & Hac).
    destruct (select_then_select _ _ _ _ h bl boxes Hp Ht Hk) as (b & Hb & Hbc).
    exists a, b. eexists. rewrite !filterByType_names. unfold inside.
    split; [exact Ha|]. split; [exact Hac|]. split; [exact Hb|].
    rewrite Hbc. f_equal. f_equal. f_equal. apply list_filter_iff. intros x. tauto.
  - destruct Hin as [a Ha]. exists a, bl, a. auto.
Qed.

Lemma X7_witness :
  exists a b c : BoxList,
    inside [1; 2] (box_of 0 0 1 1)
      (init_heap ++ [shape 0 0 1 1 "LTRect"; shape 0 0 2 2 "LTRect"])
      = (Ok a, init_heap ++ [shape 0 0 1 1 "LTRect"; shape 0 0 2 2 "LTRect"])
    /\ filterByType a (Some ["LTRect"%string])
         (init_heap ++ [shape 0 0 1 1 "LTRect"; shape 0 0 2 2 "LTRect"])
       = (Ok c, init_heap ++ [shape 0 0 1 1 "LTRect"; shape 0 0 2 2 "LTRect"])
    /\ filterByType [1; 2] (Some ["LTRect"%string])
         (init_heap ++ [shape 0 0 1 1 "LTRect"; shape 0 0 2 2 "LTRect"])
       = (Ok b, init_heap ++ [shape 0 0 1 1 "LTRect"; shape 0 0 2 2 "LTRect"])
    /\ inside b (box_of 0 0 1 1)
         (init_heap ++ [shape 0 0 1 1 "LTRect"; shape 0 0 2 2 "LTRect"])
       = (Ok c, init_heap ++ [shape 0 0 1 1 "LTRect"; shape 0 0 2 2 "LTRect"]).
Proof.
  apply (X7_filterByType_inside_commute
           (init_heap ++ [shape 0 0 1 1 "LTRect"; shape 0 0 2 2 "LTRect"])
           [1; 2] [shape 0 0 1 1 "LTRect"; shape 0 0 2 2 "LTRect"]).
  - repeat constructor.
  - repeat constructor; eexists; reflexivity.
Defined.

Lemma purge_keep_cases (b : Box) :
  purge_keep b =
    match text b with
    | None => Raise AttributeError
    | Some t =>
      if bool_decide (strip t = [])
      then match classname b with
           | None => Raise AttributeError
           | Some c => Ok (negb (bool_decide (c = LTTextLineHorizontal)))
           end
      else Ok true
    end.
Proof.
  unfold purge_keep. destruct (text b) as [t|]; simpl; [|reflexivity].
  destruct (bool_decide (strip t = [])); reflexivity.
Qed.

Lemma purge_keep_good (b : Box) (t : unicode) :
  text b = Some t ->
  (strip t = [] -> is_Some (classname b)) ->
  purge_keep b =
    Ok (negb (bool_decide (strip <$> text b = Some []))
        || negb (bool_decide (classname b = Some LTTextLineHorizontal))).
Proof.
  intros Ht Hc. rewrite purge_keep_cases, Ht. simpl.
  destruct (decide (strip t = [])) as [E|E].
  - rewrite (bool_decide_eq_true_2 _ E).
    destruct (Hc E) as [c Ec]. rewrite Ec. f_equal.
    rewrite (bool_decide_eq_true_2 (Some (strip t) = Some []))
      by (f_equal; exact E).
    simpl. f_equal. apply bool_decide_ext. split; congruence.
  - rewrite (bool_decide_eq_false_2 _ E).
    rewrite (bool_decide_eq_false_2 (Some (strip t) = Some []))
      by congruence.
    reflexivity.
Qed.

(** X8: [purge_empty_text] raises [AttributeError], and leaves the
    store as it is, when some box has no text, or has a blank text and no
    class name.  Otherwise it returns the boxes whose text is not blank
    or whose class name is not LTTextLineHorizontal: a box with text that
    is not blank needs no class name. *)
Theorem X8_purge_empty_text_errors (h : heap) (bl : BoxList) (boxes : list Box) :
  points_to h bl boxes ->
  (Exists (fun b => text b = None
                    \/ (strip <$> text b = Some [] /\ classname b = None))
          boxes ->
   purge_empty_text bl h = (Raise AttributeError, h))
  /\ (Forall (fun b => is_Some (text b)
                       /\ (strip <$> text b = Some [] -> is_Some (classname b)))
             boxes ->
      purge_empty_text bl h
      = (Ok (filter (fun lb : nat * Box =>
                       strip <$> text lb.2 <> Some []
                       \/ classname lb.2 <> Some LTTextLineHorizontal)
                    (zip bl boxes)).*1, h)).
Proof.
  intros Hp. split.
  - intros Hex. unfold purge_empty_text.
    apply (select_raise _ _ h bl boxes Hp).
    + apply Forall_forall. intros b _. rewrite purge_keep_cases.
      destruct (text b) as [t|]; [|left; reflexivity].
      destruct (bool_decide (strip t = [])); [|right; eexists; reflexivity].
      destruct (classname b); [right; eexists; reflexivity|left; reflexivity].
    + eapply Exists_impl; [exact Hex|]. intros b Hb. rewrite purge_keep_cases.
      destruct Hb as [Hb|[Ht Hc]]; [rewrite Hb; reflexivity|].
      destruct (text b) as [t|]; [|reflexivity]. simpl in Ht.
      injection Ht as Ht. rewrite (bool_decide_eq_true_2 _ Ht), Hc. reflexivity.
  - intros Hall. unfold purge_empty_text.
    rewrite (select_run _
               (fun b => negb (bool_decide (strip <$> text b = Some []))
                         || negb (bool_decide (classname b = Some LTTextLineHorizontal)))
               h bl boxes Hp).
    + f_equal. f_equal. f_equal. apply list_filter_iff.
      intros [l b]. simpl.
      rewrite orb_true_iff, !negb_true_iff, !bool_decide_eq_false. tauto.
    + eapply Forall_impl; [exact Hall|].
      intros b [[t Ht] Hc]. apply (purge_keep_good b t Ht).
      intros E. apply Hc. rewrite Ht. simpl. f_equal. exact E.
Qed.

Lemma X8_witness :
  purge_empty_text [1; 2] (init_heap ++ [glyph 0 1 (u "a"); box_of 0 0 1 1])
    = (Raise AttributeError, init_heap ++ [glyph 0 1 (u "a"); box_of 0 0 1 1])
  /\ purge_empty_text [1; 2] (init_heap ++ [glyph 0 1 (u "a"); labelled (u " ") "LTChar"])
    = (Ok [1; 2], init_heap ++ [glyph 0 1 (u "a"); labelled (u " ") "LTChar"]).
Proof.
  split.
  - apply (X8_purge_empty_text_errors (init_heap ++ [glyph 0 1 (u "a"); box_of 0 0 1 1])
             [1; 2] [glyph 0 1 (u "a"); box_of 0 0 1 1]).
    + repeat constructor.
    + apply Exists_cons_tl, Exists_cons_hd. left. reflexivity.
  - pose proof (X8_purge_empty_text_errors
                  (init_heap ++ [glyph 0 1 (u "a"); labelled (u " ") "LTChar"])
                  [1; 2] [glyph 0 1 (u "a"); labelled (u " ") "LTChar"]) as [_ H2].
    + repeat constructor.
    + rewrite H2; [vm_compute; reflexivity|].
      repeat constructor; try (eexists; reflexivity).
      intros Hc. vm_compute in Hc. discriminate Hc.
Defined.

(** X9: purging twice is purging once. *)
Theorem X9_purge_empty_text_idempotent (h : heap) (bl : BoxList) (boxes : list Box) :
  points_to h bl boxes ->
  Forall (fun b => is_Some (text b)
                   /\ (strip <$> text b = Some [] -> is_Some (classname b)))
         boxes ->
  exists out : BoxList,
    purge_empty_text bl h = (Ok out, h) /\ purge_empty_text out h = (Ok out, h).
Proof.
  intros Hp Hall.
  assert (Hk : Forall (fun b => purge_keep b =
              Ok (negb (bool_decide (strip <$> text b = Some []))
                  || negb (bool_decide (classname b = Some LTTextLineHorizontal)))) boxes).
  { eapply Forall_impl; [exact Hall|].
    intros b [[t Ht] Hc]. apply (purge_keep_good b t Ht).
    intros E. apply Hc. rewrite Ht. simpl. f_equal. exact E. }
  destruct (select_then_select _ _ _ _ h bl boxes Hp Hk Hk) as (out & H1 & H2).
  exists out. unfold purge_empty_text. split; [exact H1|].
  rewrite H2. rewrite (select_run _ _ h bl boxes Hp Hk) in H1.
  injection H1 as <-. f_equal. f_equal. f_equal.
  apply list_filter_iff. intros x. tauto.
Qed.

Lemma X9_witness :
  exists out : BoxList,
    purge_empty_text [1; 2]
      (init_heap ++ [labelled [] "LTRect"; labelled (u "  ") LTTextLineHorizontal])
    = (Ok out, init_heap ++ [labelled [] "LTRect";
                             labelled (u "  ") LTTextLineHorizontal])
    /\ purge_empty_text out
      (init_heap ++ [labelled [] "LTRect"; labelled (u "  ") LTTextLineHorizontal])
    = (Ok out, init_heap ++ [labelled [] "LTRect";
                             labelled (u "  ") LTTextLineHorizontal]).
Proof.
  apply (X9_purge_empty_text_idempotent
           (init_heap ++ [labelled [] "LTRect";
                          labelled (u "  ") LTTextLineHorizontal])
           [1; 2]
           [labelled [] "LTRect"; labelled (u "  ") LTTextLineHorizontal]).
  - repeat constructor.
  - repeat constructor; try (eexists; reflexivity).
Defined.

(** * Sums of counts *)

Section Mass.
Context {K : Type} `{EqDecision K}.

Lemma mass_nil (P : K -> Prop) `{!forall k, Decision (P k)} : mass P [] = 0%Z.
Proof. reflexivity. Qed.

Lemma mass_cons (P : K -> Prop) `{!forall k, Decision (P k)}
    (k : K) (v : Z) (d : list (K * Z)) :
  mass P ((k, v) :: d) = ((if decide (P k) then v else 0) + mass P d)%Z.
Proof.
  unfold mass. rewrite filter_cons. simpl.
  destruct (decide (P k)); reflexivity.
Qed.

Lemma mass_app (P : K -> Prop) `{!forall k, Decision (P k)} (d1 d2 : list (K * Z)) :
  mass P (d1 ++ d2) = (mass P d1 + mass P d2)%Z.
Proof.
  induction d1 as [|[k v] d1 IH]; [reflexivity|].
  rewrite <- app_comm_cons, !mass_cons, IH. lia.
Qed.

Lemma mass_iff (P Q : K -> Prop) `{!forall k, Decision (P k), !forall k, Decision (Q k)}
    (d : list (K * Z)) :
  (forall k, P k <-> Q k) -> mass P d = mass Q d.
Proof.
  intros HPQ. unfold mass. f_equal. f_equal. apply list_filter_iff.
  intros [k v]. apply HPQ.
Qed.

Lemma mass_not_key (P : K -> Prop) `{!forall k, Decision (P k)} (d : list (K * Z)) :
  Forall (fun kv => ~ P kv.1) d -> mass P d = 0%Z.
Proof.
  induction 1 as [|[k v] d Hk _ IH]; [reflexivity|].
  rewrite mass_cons, IH. destruct (decide (P k)); [contradiction|reflexivity].
Qed.

(** With distinct keys the count of a key is the sum over that key. *)
Lemma kget_mass (d : list (K * Z)) (x : K) :
  NoDup d.*1 -> default 0%Z (kget d x) = mass (fun k => k = x) d.
Proof.
  induction d as [|[k v] d IH]; intros Hnd; [reflexivity|].
  apply NoDup_cons in Hnd as [Hk Hnd]. rewrite mass_cons. simpl.
  destruct (decide (x = k)) as [->|Hne].
  - destruct (decide (k = k)) as [_|Hc]; [|contradiction]. simpl.
    rewrite mass_not_key; [lia|].
    apply Forall_forall. intros [k' v'] Hin Heq. simpl in Heq. subst k'.
    apply Hk. apply list_elem_of_fmap. exists (k, v'). split; [reflexivity|exact Hin].
  - destruct (decide (k = x)) as [Hc|_]; [congruence|]. rewrite (IH Hnd). lia.
Qed.

Lemma mass_kset (P : K -> Prop) `{!forall k, Decision (P k)}
    (d : list (K * Z)) (k : K) (v : Z) :
  mass P (kset d k v)
  = (mass P d + (if decide (P k) then v - default 0 (kget d k) else 0))%Z.
Proof.
  induction d as [|[k' v'] d IH]; simpl.
  - rewrite mass_cons, mass_nil. destruct (decide (P k)); simpl; lia.
  - destruct (decide (k = k')) as [->|Hne].
    + rewrite !mass_cons. destruct (decide (P k')); simpl; lia.
    + rewrite !mass_cons, IH. lia.
Qed.

Lemma kset_keys (d : list (K * Z)) (k x : K) (v : Z) :
  x ∈ (kset d k v).*1 <-> x = k \/ x ∈ d.*1.
Proof.
  induction d as [|[k' v'] d IH]; simpl.
  - rewrite list_elem_of_singleton. split; [auto|].
    intros [->|Hin]; [reflexivity|]. inversion Hin.
  - destruct (decide (k = k')) as [->|Hne]; csimpl; rewrite !elem_of_cons.
    + tauto.
    + rewrite IH. tauto.
Qed.

Lemma kset_NoDup (d : list (K * Z)) (k : K) (v : Z) :
  NoDup d.*1 -> NoDup (kset d k v).*1.
Proof.
  induction d as [|[k' v'] d IH]; intros Hnd; simpl.
  - apply NoDup_singleton.
  - apply NoDup_cons in Hnd as [Hk Hnd].
    destruct (decide (k = k')) as [->|Hne]; csimpl; apply NoDup_cons.
    + split; assumption.
    + split; [|apply IH, Hnd].
      rewrite kset_keys. intros [->|Hin]; contradiction.
Qed.

Lemma kset_positive (d : list (K * Z)) (k : K) (v : Z) :
  Forall (fun kv => (0 < kv.2)%Z) d -> (0 < v)%Z ->
  Forall (fun kv => (0 < kv.2)%Z) (kset d k v).
Proof.
  induction 1 as [|[k' v'] d Hv' Hd IH]; intros Hv; simpl.
  - repeat constructor. exact Hv.
  - destruct (decide (k = k')); constructor; auto.
Qed.

Lemma kget_nonneg (d : list (K * Z)) (k : K) :
  Forall (fun kv => (0 < kv.2)%Z) d -> (0 <= default 0 (kget d k))%Z.
Proof.
  induction 1 as [|[k' v'] d Hv' _ IH]; simpl; [lia|].
  destruct (decide (k = k')); simpl in *; [lia|exact IH].
Qed.

(** What [Counter(iterable)] holds after the elements [xs], starting from
    the entries [d]. *)
Lemma tally_fold (P : K -> Prop) `{!forall k, Decision (P k)}
    (xs : list K) (d : list (K * Z)) :
  NoDup d.*1 -> Forall (fun kv => (0 < kv.2)%Z) d ->
  let d' := fold_left (fun d elem => kset d elem (default 0 (kget d elem) + 1)%Z) xs d in
  NoDup d'.*1 /\ Forall (fun kv => (0 < kv.2)%Z) d'
  /\ mass P d' = (mass P d + Z.of_nat (length (filter P xs)))%Z
  /\ (forall k, k ∈ d'.*1 <-> k ∈ d.*1 \/ k ∈ xs).
Proof.
  revert d. induction xs as [|x xs IH]; intros d Hnd Hpos; simpl.
  - repeat split; try assumption; [lia|auto|].
    intros [Hk|Hk]; [exact Hk|inversion Hk].
  - pose proof (kget_nonneg d x Hpos) as Hge.
    destruct (IH (kset d x (default 0 (kget d x) + 1)%Z)) as (I1 & I2 & I3 & I4).
    + apply kset_NoDup, Hnd.
    + apply kset_positive; [exact Hpos|lia].
    + split; [exact I1|]. split; [exact I2|]. split.
      * rewrite I3, mass_kset, filter_cons.
        destruct (decide (P x)); simpl length; lia.
      * intros k. rewrite I4, kset_keys, elem_of_cons. tauto.
Qed.

Lemma tally_spec (P : K -> Prop) `{!forall k, Decision (P k)} (xs : list K) :
  NoDup (tally xs).*1 /\ Forall (fun kv => (0 < kv.2)%Z) (tally xs)
  /\ mass P (tally xs) = Z.of_nat (length (filter P xs))
  /\ (forall k, k ∈ (tally xs).*1 <-> k ∈ xs).
Proof.
  destruct (tally_fold P xs [] (NoDup_nil_2) (Forall_nil_2 _)) as (H1 & H2 & H3 & H4).
  unfold tally. split; [exact H1|]. split; [exact H2|]. split.
  - rewrite H3, mass_nil. lia.
  - intros k. rewrite H4. split; [intros [Hk|Hk]; [inversion Hk|exact Hk]|auto].
Qed.

End Mass.

(** * Rounding a histogram *)

Lemma dict_get_kget (d : list (num * Z)) (k : num) : dict_get d k = kget d k.
Proof. induction d as [|[k' v] d IH]; simpl; [reflexivity|]. rewrite IH. reflexivity. Qed.

Lemma dict_set_kset (d : list (num * Z)) (k : num) (v : Z) : dict_set d k v = kset d k v.
Proof. induction d as [|[k' v'] d IH]; simpl; [reflexivity|]. rewrite IH. reflexivity. Qed.

Lemma count_of_mass (d : list (num * Z)) (x : num) :
  NoDup d.*1 -> count_of d x = mass (fun k => k = x) d.
Proof. intros Hnd. unfold count_of. rewrite dict_get_kget. apply kget_mass, Hnd. Qed.

Lemma count_of_single (k e : num) (n : Z) :
  count_of [(k, n)] e = if decide (e = k) then n else 0%Z.
Proof. unfold count_of. simpl. destruct (decide (e = k)); reflexivity. Qed.

(** The first loop of [Counter.__add__] against a single entry [(k, n)]:
    on distinct keys with positive counts it copies the entries, adding
    [n] at [k]. *)
Lemma add_first_loop (k : num) (n : Z) (pre acc : list (num * Z)) :
  (0 <= n)%Z ->
  NoDup (acc ++ pre).*1 ->
  Forall (fun kv => (0 < kv.2)%Z) pre ->
  fold_left (fun result (item : num * Z) =>
               if (0 <? item.2 + count_of [(k, n)] item.1)%Z
               then dict_set result item.1 (item.2 + count_of [(k, n)] item.1)
               else result) pre acc
  = acc ++ map (fun kv => (kv.1, kv.2 + count_of [(k, n)] kv.1)%Z) pre.
Proof.
  intros Hn. revert acc.
  induction pre as [|[e cnt] pre IH]; intros acc Hnd Hpos; cbn [fold_left map].
  - rewrite app_nil_r. reflexivity.
  - apply Forall_cons in Hpos as [Hcnt Hpos]. simpl in Hcnt. cbn [fst snd].
    assert (Hc : (0 <= count_of [(k, n)] e)%Z).
    { rewrite count_of_single. destruct (decide (e = k)); lia. }
    destruct (0 <? cnt + count_of [(k, n)] e)%Z eqn:E; [|apply Z.ltb_ge in E; lia].
    rewrite dict_set_fresh.
    + rewrite IH; [rewrite <- app_assoc; reflexivity| |exact Hpos].
      rewrite <- app_assoc, fmap_app. rewrite fmap_app in Hnd. exact Hnd.
    + rewrite fmap_app in Hnd. apply NoDup_app in Hnd as (_ & Hd & _).
      intros Hin. apply (Hd _ Hin). simpl. apply list_elem_of_here.
Qed.

Lemma Counter_add_single (P : num -> Prop) (c : counter) (cl : pyclass)
    (k : num) (n : Z) :
  tidy P (items c) -> (0 < n)%Z ->
  items (Counter_add c {| cls := cl; items := [(k, n)] |})
  = map (fun kv => (kv.1, kv.2 + count_of [(k, n)] kv.1)%Z) (items c)
    ++ (if dict_mem (items c) k then [] else [(k, n)]).
Proof.
  intros [Hnd Hall] Hn. unfold Counter_add. cbn [items].
  rewrite (add_first_loop k n (items c) []); [|lia|exact Hnd|].
  - cbn [fold_left app fst snd].
    destruct (dict_mem (items c) k) eqn:Em; cbn [negb andb].
    + rewrite app_nil_r. reflexivity.
    + destruct (0 <? n)%Z eqn:E; [|apply Z.ltb_ge in E; lia].
      apply dict_set_fresh.
      unfold dict_mem in Em. destruct (dict_get (items c) k) eqn:Eg; [discriminate|].
      apply dict_get_None in Eg. intros Hin. apply Eg.
      rewrite <- list_fmap_compose in Hin. exact Hin.
  - eapply Forall_impl; [exact Hall|]. intros kv [_ Hkv]. exact Hkv.
Qed.

Lemma mass_add_single (Q : num -> Prop) `{!forall k, Decision (Q k)}
    (k : num) (n : Z) (d : list (num * Z)) :
  NoDup d.*1 ->
  mass Q (map (fun kv => (kv.1, kv.2 + count_of [(k, n)] kv.1)%Z) d
          ++ (if dict_mem d k then [] else [(k, n)]))
  = (mass Q d + (if decide (Q k) then n else 0))%Z.
Proof.
  intros Hnd. rewrite mass_app.
  induction d as [|[e cnt] d IH]; cbn [map].
  - unfold dict_mem. simpl. rewrite mass_cons, !mass_nil.
    destruct (decide (Q k)); lia.
  - apply NoDup_cons in Hnd as [He Hnd]. specialize (IH Hnd).
    cbn [fst snd]. rewrite !mass_cons, count_of_single.
    unfold dict_mem in *. simpl.
    destruct (decide (k = e)) as [->|Hne].
    + destruct (decide (e = e)) as [_|Hc]; [|contradiction].
      assert (Eg : dict_get d e = None) by (apply dict_get_None; exact He).
      rewrite Eg in IH. rewrite mass_cons, !mass_nil in IH. rewrite mass_nil.
      destruct (decide (Q e)); lia.
    + destruct (decide (e = k)) as [Hc|_]; [congruence|].
      destruct (decide (Q e)); lia.
Qed.

Lemma rounder_loop_mass (tol : Qc) (todo : list (num * Z)) (c : counter) :
  tol <> Q2Qc 0 ->
  tidy (fun _ => True) (items c) ->
  Forall (fun kv => (0 < kv.2)%Z) todo ->
  exists r : counter,
    rounder_loop c todo tol = Ok r
    /\ tidy (fun _ => True) (items r)
    /\ forall (Q : num -> Prop) (dec : forall k, Decision (Q k)),
         mass Q (items r) = (mass Q (items c) + mass (rounds_to tol Q) todo)%Z.
Proof.
  intros Hne. revert c.
  induction todo as [|[k n] todo IH]; intros c Hc Hpos; cbn [rounder_loop].
  - exists c. split; [reflexivity|]. split; [exact Hc|].
    intros Q dec. rewrite mass_nil. lia.
  - apply Forall_cons in Hpos as [Hn Hpos]. simpl in Hn.
    destruct (_rounder_total k tol Hne) as [k' Ek]. rewrite Ek.
    set (c' := Counter_add c {| cls := HistogramClass; items := [(k', n)] |}).
    assert (Hc' : tidy (fun _ => True) (items c')).
    { apply Counter_add_tidy.
      - destruct Hc as [_ Hall]. eapply Forall_impl; [exact Hall|].
        intros kv [Hkv _]. exact Hkv.
      - constructor; [|constructor]. exact I. }
    destruct (IH c' Hc' Hpos) as (r & Hr & Ht & Hm).
    exists r. split; [exact Hr|]. split; [exact Ht|].
    intros Q dec. rewrite (Hm Q dec), mass_cons.
    unfold c'. rewrite (Counter_add_single _ c HistogramClass k' n Hc Hn).
    rewrite mass_add_single by (destruct Hc as [Hnd _]; exact Hnd).
    assert (E : (if decide (rounds_to tol Q k) then n else 0%Z)
                = (if decide (Q k') then n else 0%Z)).
    { apply decide_ext. unfold rounds_to. rewrite Ek. reflexivity. }
    rewrite E. lia.
Qed.

(** X12: whatever the counts of the histogram are, the entries that
    [rounder] returns have distinct keys and positive counts: sums that
    are not positive are dropped. *)
Theorem X12_rounder_result_tidy (self r : counter) (tol : Qc) :
  rounder self tol = Ok r ->
  NoDup (items r).*1
  /\ Forall (fun kv => (0 < kv.2)%Z) (items r).
Proof.
  unfold rounder. destruct (cls self); [discriminate|]. intros Hr.
  destruct (rounder_loop_tidy tol (items self) {| cls := HistogramClass; items := [] |} r)
    as [Hnd Hall].
  - split; [apply NoDup_nil_2|constructor].
  - exact Hr.
  - split; [exact Hnd|]. eapply Forall_impl; [exact Hall|].
    intros kv [_ Hkv]. exact Hkv.
Qed.

Lemma X12_witness :
  exists r : counter,
    rounder {| cls := HistogramClass;
               items := [(of_Q (rnd (13 # 10)), 5%Z); (of_Q (rnd (7 # 10)), (-3)%Z);
                         (of_Q (rnd (26 # 10)), 0%Z)] |} (Q2Qc 1) = Ok r
    /\ NoDup (items r).*1
    /\ Forall (fun kv => (0 < kv.2)%Z) (items r).
Proof.
  destruct (rounder {| cls := HistogramClass;
                       items := [(of_Q (rnd (13 # 10)), 5%Z); (of_Q (rnd (7 # 10)), (-3)%Z);
                                 (of_Q (rnd (26 # 10)), 0%Z)] |} (Q2Qc 1))
    as [r|e] eqn:E.
  - exists r. split; [reflexivity|]. exact (X12_rounder_result_tidy _ r _ E).
  - vm_compute in E. discriminate E.
Defined.

Lemma filter_all {X : Type} (l : list X) : filter (fun _ : X => True) l = l.
Proof.
  induction l as [|x l IH]; [reflexivity|].
  rewrite filter_cons_True by exact I. rewrite IH. reflexivity.
Qed.

Lemma filter_all_length {X : Type} (l : list X) :
  length (filter (fun _ : X => True) l) = length l.
Proof. rewrite filter_all. reflexivity. Qed.

Lemma total_mass {K : Type} (d : list (K * Z)) :
  foldr Z.add 0%Z d.*2 = mass (fun _ : K => True) d.
Proof. unfold mass. rewrite filter_all. reflexivity. Qed.

Lemma rounder_run_mass (self : counter) (tol : Qc) :
  cls self = HistogramClass ->
  tol <> Q2Qc 0 ->
  Forall (fun kv => (0 < kv.2)%Z) (items self) ->
  exists r : counter,
    rounder self tol = Ok r
    /\ NoDup (items r).*1
    /\ forall (Q : num -> Prop) (dec : forall k, Decision (Q k)),
         mass Q (items r) = mass (rounds_to tol Q) (items self).
Proof.
  intros Hcls Hne Hpos. unfold rounder. rewrite Hcls.
  destruct (rounder_loop_mass tol (items self) {| cls := HistogramClass; items := [] |}
              Hne) as (r & Hr & [Hnd _] & Hm).
  - split; [apply NoDup_nil_2|constructor].
  - exact Hpos.
  - exists r. split; [exact Hr|]. split; [exact Hnd|].
    intros Q dec. rewrite (Hm Q dec). simpl. rewrite mass_nil. lia.
Qed.

Lemma rounds_to_eq (tol : Qc) (x k : num) :
  rounds_to tol (fun k' => k' = x) k <-> _rounder k tol = Ok x.
Proof.
  unfold rounds_to. destruct (_rounder k tol) as [k'|e].
  - split; [intros ->; reflexivity|intros [= ->]; reflexivity].
  - split; [contradiction|discriminate].
Qed.

(** X13: for a histogram with positive counts and a tolerance other than
    zero, the count that [rounder] returns for a key is the sum of the
    counts of the keys that round to it. *)
Theorem X13_rounder_sums_buckets (self : counter) (tol : Qc) :
  cls self = HistogramClass ->
  tol <> Q2Qc 0 ->
  Forall (fun kv => (0 < kv.2)%Z) (items self) ->
  exists r : counter,
    rounder self tol = Ok r
    /\ forall x : num,
         count_of (items r) x = mass (fun k => _rounder k tol = Ok x) (items self).
Proof.
  intros Hcls Hne Hpos.
  destruct (rounder_run_mass self tol Hcls Hne Hpos) as (r & Hr & Hnd & Hm).
  exists r. split; [exact Hr|]. intros x.
  rewrite (count_of_mass _ x Hnd), (Hm (fun k => k = x) _).
  apply mass_iff. intros k. apply rounds_to_eq.
Qed.

Lemma X13_witness :
  exists r : counter,
    rounder {| cls := HistogramClass;
               items := [(of_Q (rnd (13 # 10)), 2%Z); (of_Q (rnd (7 # 10)), 3%Z)] |} (Q2Qc 1) = Ok r
    /\ count_of (items r) (of_Z 1) = 5%Z.
Proof.
  destruct (X13_rounder_sums_buckets
              {| cls := HistogramClass;
                 items := [(of_Q (rnd (13 # 10)), 2%Z); (of_Q (rnd (7 # 10)), 3%Z)] |} (Q2Qc 1))
    as (r & Hr & Hc).
  - reflexivity.
  - discriminate.
  - repeat constructor.
  - exists r. split; [exact Hr|]. rewrite Hc. vm_compute. reflexivity.
Defined.

(** X14: under the same conditions [rounder] keeps the total: the counts
    it returns add up to the counts it was given. *)
Theorem X14_rounder_keeps_total (self : counter) (tol : Qc) :
  cls self = HistogramClass ->
  tol <> Q2Qc 0 ->
  Forall (fun kv => (0 < kv.2)%Z) (items self) ->
  exists r : counter,
    rounder self tol = Ok r
    /\ foldr Z.add 0%Z (items r).*2 = foldr Z.add 0%Z (items self).*2.
Proof.
  intros Hcls Hne Hpos.
  destruct (rounder_run_mass self tol Hcls Hne Hpos) as (r & Hr & _ & Hm).
  exists r. split; [exact Hr|].
  rewrite !total_mass, (Hm (fun _ => True) _).
  apply mass_iff. intros k. unfold rounds_to.
  destruct (_rounder_total k tol Hne) as [k' ->]. tauto.
Qed.

Lemma X14_witness :
  exists r : counter,
    rounder {| cls := HistogramClass;
               items := [(of_Q (rnd (13 # 10)), 2%Z); (of_Q (rnd (7 # 10)), 3%Z)] |} (Q2Qc 1) = Ok r
    /\ foldr Z.add 0%Z (items r).*2 = 5%Z.
Proof.
  destruct (X14_rounder_keeps_total
              {| cls := HistogramClass;
                 items := [(of_Q (rnd (13 # 10)), 2%Z); (of_Q (rnd (7 # 10)), 3%Z)] |} (Q2Qc 1))
    as (r & Hr & Hc).
  - reflexivity.
  - discriminate.
  - repeat constructor.
  - exists r. split; [exact Hr|]. rewrite Hc. reflexivity.
Defined.

(** X15: on a histogram [rounder] fails exactly when the tolerance is
    zero and there is an entry to round, with [ZeroDivisionError]; the
    empty histogram is returned as it is for every tolerance. *)
Theorem X15_rounder_zero_tolerance (self : counter) (tol : Qc) :
  cls self = HistogramClass ->
  (rounder self tol = Raise ZeroDivisionError <-> tol = Q2Qc 0 /\ items self <> [])
  /\ (tol <> Q2Qc 0 \/ items self = [] -> exists r, rounder self tol = Ok r)
  /\ (items self = [] ->
      rounder self tol = Ok {| cls := HistogramClass; items := [] |}).
Proof.
  intros Hcls. unfold rounder. rewrite Hcls.
  assert (Hempty : items self = [] ->
            rounder_loop {| cls := HistogramClass; items := [] |} (items self) tol
            = Ok {| cls := HistogramClass; items := [] |}).
  { intros ->. reflexivity. }
  assert (Hzero : tol = Q2Qc 0 -> items self <> [] ->
            rounder_loop {| cls := HistogramClass; items := [] |} (items self) tol
            = Raise ZeroDivisionError).
  { intros -> Hne. destruct (items self) as [|[k n] rest]; [congruence|].
    reflexivity. }
  split; [|split; [|exact Hempty]].
  - split; [|intros [E Hne]; apply Hzero; assumption].
    intros Hr. destruct (decide (tol = Q2Qc 0)) as [E|E].
    + split; [exact E|]. intros Hnil. rewrite (Hempty Hnil) in Hr. discriminate.
    + destruct (rounder_loop_total tol (items self)
                  {| cls := HistogramClass; items := [] |} E) as [r Hr'].
      congruence.
  - intros [E|E].
    + apply rounder_loop_total, E.
    + eexists. apply Hempty, E.
Qed.

Lemma X15_witness :
  rounder one_edge (Q2Qc 0) = Raise ZeroDivisionError
  /\ rounder {| cls := HistogramClass; items := [] |} (Q2Qc 0)
     = Ok {| cls := HistogramClass; items := [] |}.
Proof.
  destruct (X15_rounder_zero_tolerance one_edge (Q2Qc 0) eq_refl) as ([_ H1] & _ & _).
  destruct (X15_rounder_zero_tolerance {| cls := HistogramClass; items := [] |}
              (Q2Qc 0) eq_refl) as (_ & _ & H3).
  split; [apply H1; split; [reflexivity|discriminate]|apply H3; reflexivity].
Defined.

(** * Counting boxes *)

Lemma filter_map_length {X Y : Type} (f : X -> Y) (P : Y -> Prop)
    `{!forall y, Decision (P y)} (l : list X) :
  length (filter P (map f l)) = length (filter (fun x => P (f x)) l).
Proof.
  induction l as [|x l IH]; [reflexivity|].
  cbn [map]. rewrite !filter_cons. destruct (decide (P (f x))); simpl; lia.
Qed.

Lemma histogram_run (h : heap) (bl : BoxList) (boxes : list Box) (f : Box -> num) :
  points_to h bl boxes ->
  histogram bl f h
  = (Ok {| cls := HistogramClass; items := tally (map f boxes) |}, h).
Proof.
  intros Hp. unfold histogram.
  rewrite (bind_ok _ _ _ _ _ (collect_run (fun item => item) h _ _ Hp)).
  rewrite (bind_ok _ _ _ _ _ (collect_run f h _ _ Hp)).
  reflexivity.
Qed.

(** X16: [histogram] leaves the store as it is and returns a
    [Histogram] with one entry for each value that [dir_fun] takes, whose
    count is the number of boxes with that value; the counts add up to
    the length of the list. *)
Theorem X16_histogram_counts (h : heap) (bl : BoxList) (boxes : list Box)
    (dir_fun : Box -> num) :
  points_to h bl boxes ->
  exists H : counter,
    histogram bl dir_fun h = (Ok H, h)
    /\ cls H = HistogramClass
    /\ NoDup (items H).*1
    /\ (forall x : num,
          count_of (items H) x
          = Z.of_nat (length (filter (fun b => dir_fun b = x) boxes)))
    /\ foldr Z.add 0%Z (items H).*2 = Z.of_nat (length bl).
Proof.
  intros Hp. eexists. split; [apply (histogram_run h bl boxes dir_fun Hp)|].
  cbn [cls items]. split; [reflexivity|].
  destruct (tally_spec (fun _ : num => True) (map dir_fun boxes)) as (Hnd & _ & Hall & _).
  split; [exact Hnd|]. split.
  - intros x. rewrite (count_of_mass _ x Hnd).
    destruct (tally_spec (fun k : num => k = x) (map dir_fun boxes)) as (_ & _ & Hx & _).
    rewrite Hx, filter_map_length. reflexivity.
  - rewrite total_mass, Hall, filter_map_length, filter_all_length.
    f_equal. symmetry. exact (Forall2_length _ _ _ Hp).
Qed.

Lemma X16_witness :
  exists H : counter,
    histogram [1; 2; 3] left three_boxes = (Ok H, three_boxes)
    /\ count_of (items H) (of_Z 2) = 1%Z
    /\ foldr Z.add 0%Z (items H).*2 = 3%Z.
Proof.
  destruct (X16_histogram_counts three_boxes [1; 2; 3]
              [box_of (-1) 0 1 1; box_of 2 3 4 5; box_of 1 1 3 9] left)
    as (H & Hrun & _ & _ & Hc & Ht).
  - repeat constructor.
  - exists H. split; [exact Hrun|]. split; [|exact Ht].
    rewrite Hc. vm_compute. reflexivity.
Defined.

(** X17: a histogram of box edges, rounded: for a tolerance other than
    zero the count of a key is the number of boxes whose edge rounds to
    that key. *)
Theorem X17_histogram_rounder (h : heap) (bl : BoxList) (boxes : list Box)
    (dir_fun : Box -> num) (tol : Qc) :
  points_to h bl boxes ->
  tol <> Q2Qc 0 ->
  exists H r : counter,
    histogram bl dir_fun h = (Ok H, h)
    /\ rounder H tol = Ok r
    /\ forall x : num,
         count_of (items r) x
         = Z.of_nat (length (filter (fun b => _rounder (dir_fun b) tol = Ok x) boxes)).
Proof.
  intros Hp Hne.
  destruct (tally_spec (fun _ : num => True) (map dir_fun boxes)) as (_ & Hpos & _ & _).
  destruct (rounder_run_mass {| cls := HistogramClass; items := tally (map dir_fun boxes) |}
              tol eq_refl Hne Hpos) as (r & Hr & Hnd & Hm).
  eexists _, r. split; [apply (histogram_run h bl boxes dir_fun Hp)|].
  split; [exact Hr|]. intros x.
  rewrite (count_of_mass _ x Hnd), (Hm (fun k => k = x) _). cbn [items].
  destruct (tally_spec (rounds_to tol (fun k => k = x)) (map dir_fun boxes))
    as (_ & _ & Hx & _).
  rewrite Hx, filter_map_length. do 2 f_equal.
  apply list_filter_iff. intros b. apply rounds_to_eq.
Qed.

Lemma X17_witness :
  exists H r : counter,
    histogram [1; 2; 3] right three_boxes = (Ok H, three_boxes)
    /\ rounder H (Qc_of_Z 4) = Ok r
    /\ count_of (items r) (of_Z 4) = 2%Z.
Proof.
  destruct (X17_histogram_rounder three_boxes [1; 2; 3]
              [box_of (-1) 0 1 1; box_of 2 3 4 5; box_of 1 1 3 9] right (Qc_of_Z 4))
    as (H & r & Hrun & Hr & Hc).
  - repeat constructor.
  - discriminate.
  - exists H, r. split; [exact Hrun|]. split; [exact Hr|].
    rewrite Hc. vm_compute. reflexivity.
Defined.

Lemma classnames_run (h : heap) (bl : BoxList) (boxes : list Box) :
  points_to h bl boxes ->
  Forall (fun b => is_Some (classname b)) boxes ->
  classnames bl h = (Ok (omap classname boxes), h).
Proof.
  induction 1 as [|l b bl boxes Hl _ IH]; intros Hall; [reflexivity|].
  apply Forall_cons in Hall as [[c Hc] Hall].
  change (omap classname (b :: boxes))
    with (match classname b with
          | Some c => c :: omap classname boxes
          | None => omap classname boxes
          end).
  cbn [classnames]. unfold bind at 1, load. rewrite Hl. cbv beta iota. rewrite Hc.
  unfold bind. rewrite (IH Hall). reflexivity.
Qed.

Lemma classnames_raise (h : heap) (bl : BoxList) (boxes : list Box) :
  points_to h bl boxes ->
  Exists (fun b => classname b = None) boxes ->
  classnames bl h = (Raise AttributeError, h).
Proof.
  induction 1 as [|l b bl boxes Hl _ IH]; intros Hex; [inversion Hex|].
  cbn [classnames]. unfold bind at 1, load. rewrite Hl. cbv beta iota.
  destruct (classname b) as [c|] eqn:Hc; [|reflexivity].
  unfold bind. rewrite IH; [reflexivity|].
  apply Exists_cons in Hex as [Hex|Hex]; [congruence|exact Hex].
Qed.

Lemma omap_filter_length (c : string) (boxes : list Box) :
  length (filter (fun n => n = c) (omap classname boxes))
  = length (filter (fun b => classname b = Some c) boxes).
Proof.
  induction boxes as [|b boxes IH]; [reflexivity|].
  change (omap classname (b :: boxes))
    with (match classname b with
          | Some c => c :: omap classname boxes
          | None => omap classname boxes
          end).
  rewrite (filter_cons (fun b => classname b = Some c)).
  destruct (classname b) as [n|].
  - rewrite filter_cons.
    destruct (decide (n = c)) as [->|Hne].
    + destruct (decide (Some c = Some c)); [|contradiction]. simpl. lia.
    + destruct (decide (Some n = Some c)); [congruence|]. exact IH.
  - destruct (decide (None = Some c)); [discriminate|]. exact IH.
Qed.

(** X18: [count] leaves the store as it is and returns, for each class
    name, the number of boxes that have it; it raises [AttributeError]
    when a box has no class name. *)
Theorem X18_count (h : heap) (bl : BoxList) (boxes : list Box) :
  points_to h bl boxes ->
  (Forall (fun b => is_Some (classname b)) boxes ->
   exists d : list (string * Z),
     count bl h = (Ok d, h)
     /\ NoDup d.*1
     /\ (forall c : string,
           default 0%Z (kget d c)
           = Z.of_nat (length (filter (fun b => classname b = Some c) boxes)))
     /\ foldr Z.add 0%Z d.*2 = Z.of_nat (length bl))
  /\ (Exists (fun b => classname b = None) boxes ->
      count bl h = (Raise AttributeError, h)).
Proof.
  intros Hp. split.
  - intros Hall. exists (tally (omap classname boxes)). unfold count.
    rewrite (bind_ok _ _ _ _ _ (classnames_run h bl boxes Hp Hall)).
    split; [reflexivity|].
    destruct (tally_spec (fun _ : string => True) (omap classname boxes))
      as (Hnd & _ & Ht & _).
    split; [exact Hnd|]. split.
    + intros c. rewrite (kget_mass _ c Hnd).
      destruct (tally_spec (fun n : string => n = c) (omap classname boxes))
        as (_ & _ & Hc & _).
      rewrite Hc, omap_filter_length. reflexivity.
    + rewrite total_mass, Ht, filter_all_length. f_equal.
      rewrite (Forall2_length _ _ _ Hp). clear Hp Hnd Ht.
      induction Hall as [|b boxes [c Hc] _ IH]; [reflexivity|].
      change (omap classname (b :: boxes))
        with (match classname b with
              | Some c => c :: omap classname boxes
              | None => omap classname boxes
              end).
      rewrite Hc. simpl. f_equal. exact IH.
  - intros Hex. unfold count, bind.
    rewrite (classnames_raise h bl boxes Hp Hex). reflexivity.
Qed.

Lemma X18_witness :
  (exists d : list (string * Z),
     count [1; 2] (init_heap ++ [shape 0 0 1 1 "LTRect"; shape 0 0 2 2 "LTRect"])
       = (Ok d, init_heap ++ [shape 0 0 1 1 "LTRect"; shape 0 0 2 2 "LTRect"])
     /\ default 0%Z (kget d "LTRect"%string) = 2%Z)
  /\ count [1; 2] (init_heap ++ [shape 0 0 1 1 "LTRect"; box_of 0 0 1 1])
     = (Raise AttributeError, init_heap ++ [shape 0 0 1 1 "LTRect"; box_of 0 0 1 1]).
Proof.
  split.
  - destruct (X18_count (init_heap ++ [shape 0 0 1 1 "LTRect"; shape 0 0 2 2 "LTRect"])
                [1; 2] [shape 0 0 1 1 "LTRect"; shape 0 0 2 2 "LTRect"]) as [H1 _].
    + repeat constructor.
    + destruct H1 as (d & Hd & _ & Hc & _).
      * repeat constructor; eexists; reflexivity.
      * exists d. split; [exact Hd|]. rewrite Hc. reflexivity.
  - apply (X18_count (init_heap ++ [shape 0 0 1 1 "LTRect"; box_of 0 0 1 1])
             [1; 2] [shape 0 0 1 1 "LTRect"; box_of 0 0 1 1]).
    + repeat constructor.
    + apply Exists_cons_tl, Exists_cons_hd. reflexivity.
Defined.

(** * Text tests *)

Lemma lstrip_nil_iff (l : unicode) :
  lstrip l = [] <-> Forall (fun c => is_space c = true) l.
Proof.
  induction l as [|c l IH]; simpl.
  - split; [constructor|reflexivity].
  - destruct (is_space c) eqn:E.
    + rewrite IH. split; [intros Hl; constructor; assumption|].
      intros Hl. apply Forall_cons in Hl as [_ Hl]. exact Hl.
    + split; [discriminate|]. intros Hl. apply Forall_cons in Hl as [Hc _]. congruence.
Qed.

Lemma lstrip_spaces (l : unicode) :
  Forall (fun c => is_space c = true) (lstrip l)
  <-> Forall (fun c => is_space c = true) l.
Proof.
  induction l as [|c l IH]; simpl; [reflexivity|].
  destruct (is_space c) eqn:E.
  - rewrite IH. split; [intros Hl; constructor; assumption|].
    intros Hl. apply Forall_cons in Hl as [_ Hl]. exact Hl.
  - reflexivity.
Qed.

(** A text strips to nothing exactly when it is all whitespace. *)
Lemma strip_empty_iff (s : unicode) :
  strip s = [] <-> Forall (fun c => is_space c = true) s.
Proof.
  unfold strip, rstrip.
  rewrite <- lstrip_spaces.
  split.
  - intros Hl. apply (f_equal (@rev N)) in Hl. rewrite rev_involutive in Hl.
    simpl in Hl. apply lstrip_nil_iff in Hl. apply Forall_rev in Hl.
    rewrite rev_involutive in Hl. exact Hl.
  - intros Hl. apply Forall_rev in Hl. apply lstrip_nil_iff in Hl.
    rewrite Hl. reflexivity.
Qed.

Lemma strip_app_nonblank (s t : unicode) :
  strip s <> [] -> strip (s ++ t) <> [].
Proof.
  rewrite !strip_empty_iff, Forall_app. tauto.
Qed.

Lemma endswith_app (s t : unicode) (suffix : N) :
  t <> [] ->
  endswith (s ++ t) [suffix] = endswith t [suffix].
Proof.
  intros Ht. unfold endswith. rewrite rev_app_distr. simpl.
  destruct (rev t) as [|c l] eqn:E.
  - apply (f_equal (@rev N)) in E. rewrite rev_involutive in E. simpl in E.
    congruence.
  - simpl. reflexivity.
Qed.

(** * Merging boxes along a line *)

Lemma is_connected_true_inv (s n : Box) :
  is_connected_to_value s n = Ok true ->
  exists ts tn : unicode,
    text s = Some ts /\ text n = Some tn
    /\ strip ts <> [] /\ strip tn <> []
    /\ barycenter_y s = barycenter_y n
    /\ equal ts (right s) (left n) = true.
Proof.
  unfold is_connected_to_value.
  destruct (text s) as [ts|]; simpl; [|discriminate].
  destruct (decide (strip ts = [])) as [E1|E1];
    [rewrite (bool_decide_eq_true_2 _ E1); discriminate|].
  rewrite (bool_decide_eq_false_2 _ E1).
  destruct (text n) as [tn|]; simpl; [|discriminate].
  destruct (decide (strip tn = [])) as [E2|E2];
    [rewrite (bool_decide_eq_true_2 _ E2); discriminate|].
  rewrite (bool_decide_eq_false_2 _ E2).
  intros [= Hb]. apply andb_true_iff in Hb as [Hy He].
  apply bool_decide_eq_true in Hy.
  exists ts, tn. auto 10.
Qed.

Lemma equal_text (t1 t2 : unicode) (l r : num) :
  endswith t1 (u "(") = endswith t2 (u "(") -> equal t1 l r = equal t2 l r.
Proof. intros E. unfold equal. rewrite E. reflexivity. Qed.

(** X19: merging keeps the chain.  When [self] is connected to [next]
    and has absorbed it, [self] is connected to a third box exactly when
    [next] was: the answers, errors included, are the same. *)
Theorem X19_extend_keeps_chain (h : heap) (self next third : loc) (s n t : Box) :
  h !! self = Some s ->
  h !! next = Some n ->
  h !! third = Some t ->
  third <> self ->
  (is_connected_to self next h).1 = Ok true ->
  exists h' : heap,
    extend self next h = (Ok tt, h')
    /\ (is_connected_to self third h').1 = (is_connected_to next third h).1.
Proof.
  intros Hs Hn Ht Hne Hconn.
  rewrite (is_connected_to_run h self next s n Hs Hn) in Hconn. simpl in Hconn.
  destruct (is_connected_true_inv s n Hconn)
    as (ts & tn & Hts & Htn & E1 & E2 & Hy & _).
  assert (Hlt : self < length h) by (apply lookup_lt_Some in Hs; exact Hs).
  eexists. split; [exact (extend_run h self next s n ts tn Hs Hn Hts Htn)|].
  rewrite (is_connected_to_run h next third n t Hn Ht).
  erewrite is_connected_to_run;
    [|apply list_lookup_insert_eq; exact Hlt
     |rewrite list_lookup_insert_ne by congruence; exact Ht].
  simpl. unfold is_connected_to_value. simpl text. rewrite Htn. simpl.
  rewrite (bool_decide_eq_false_2 _ (strip_app_nonblank ts tn E1)).
  rewrite (bool_decide_eq_false_2 _ E2).
  destruct (text_strip (text t)) as [st|e]; [|reflexivity].
  destruct (bool_decide (st = [])); [reflexivity|].
  simpl. rewrite Hy. f_equal. f_equal.
  apply equal_text. apply endswith_app.
  intros ->. apply E2. reflexivity.
Qed.

Lemma X19_witness :
  exists h' : heap,
    extend 1 2 (init_heap ++ [glyph 0 1 (u "a("); glyph (rnd (14 # 10)) 3 (u "b"); glyph 5 6 (u "c")])
      = (Ok tt, h')
    /\ (is_connected_to 1 3 h').1
       = (is_connected_to 2 3
            (init_heap ++ [glyph 0 1 (u "a("); glyph (rnd (14 # 10)) 3 (u "b"); glyph 5 6 (u "c")])).1.
Proof.
  apply (X19_extend_keeps_chain
           (init_heap ++ [glyph 0 1 (u "a("); glyph (rnd (14 # 10)) 3 (u "b"); glyph 5 6 (u "c")])
           1 2 3 (glyph 0 1 (u "a(")) (glyph (rnd (14 # 10)) 3 (u "b")) (glyph 5 6 (u "c"))).
  - reflexivity.
  - reflexivity.
  - reflexivity.
  - discriminate.
  - vm_compute. reflexivity.
Defined.

(** X20: [copy] makes a new object with the rectangle, text and
    barycentres of the original, but without its class name, and leaves
    the original alone; extending the copy afterwards does not change
    the original either. *)
Theorem X20_copy_is_independent (h : heap) (o next : loc) (b n : Box) (tb tn : unicode) :
  h !! o = Some b ->
  h !! next = Some n ->
  text b = Some tb ->
  text n = Some tn ->
  exists h1 h2 : heap,
    copy o h = (Ok (length h), h1)
    /\ h1 !! length h
       = Some {| rect := rect b; text := text b; barycenter := barycenter b;
                 barycenter_y := barycenter_y b; classname := None |}
    /\ h1 !! o = Some b
    /\ extend (length h) next h1 = (Ok tt, h2)
    /\ h2 !! o = Some b
    /\ (text <$> h2 !! length h) = Some (Some (tb ++ tn)).
Proof.
  intros Ho Hn Htb Htn.
  assert (Hlt : o < length h) by (apply lookup_lt_Some in Ho; exact Ho).
  assert (Hlt' : next < length h) by (apply lookup_lt_Some in Hn; exact Hn).
  set (c := Box_new (rect b) (text b) (barycenter b) (barycenter_y b)).
  assert (Hc : (h ++ [c]) !! length h = Some c) by (apply list_lookup_middle; reflexivity).
  assert (Hn1 : (h ++ [c]) !! next = Some n) by (rewrite lookup_app_l; assumption).
  eexists (h ++ [c]), _. split.
  { unfold copy, bind, load. rewrite Ho. reflexivity. }
  split; [exact Hc|].
  split; [rewrite lookup_app_l; assumption|].
  split; [exact (extend_run (h ++ [c]) (length h) next c n tb tn Hc Hn1 Htb Htn)|].
  split.
  - rewrite list_lookup_insert_ne by lia. rewrite lookup_app_l; assumption.
  - rewrite list_lookup_insert_eq; [reflexivity|]. rewrite length_app. simpl. lia.
Qed.

Lemma X20_witness :
  exists h1 h2 : heap,
    copy 1 (init_heap ++ [labelled (u "ab") "LTChar"; glyph 1 3 (u "cd")]) = (Ok 3, h1)
    /\ (classname <$> h1 !! 3) = Some None
    /\ extend 3 2 h1 = (Ok tt, h2)
    /\ h2 !! 1 = Some (labelled (u "ab") "LTChar").
Proof.
  destruct (X20_copy_is_independent
              (init_heap ++ [labelled (u "ab") "LTChar"; glyph 1 3 (u "cd")]) 1 2
              (labelled (u "ab") "LTChar") (glyph 1 3 (u "cd")) (u "ab") (u "cd")
              eq_refl eq_refl eq_refl eq_refl)
    as (h1 & h2 & H1 & H2 & _ & H4 & H5 & _).
  exists h1, h2. split; [exact H1|]. split; [|split; assumption].
  simpl in H2. rewrite H2. reflexivity.
Defined.

(** X21: the only error of [is_connected_to] is [AttributeError], and it
    is raised exactly when [self] has no text, or [self] has a text that
    is not blank and [next] has no text: a blank [self] answers false
    before [next] is looked at. *)
Theorem X21_is_connected_to_errors (self next : Box) :
  (is_connected_to_value self next = Raise AttributeError <->
   text self = None
   \/ (strip <$> text self <> Some [] /\ text next = None))
  /\ (forall e, is_connected_to_value self next = Raise e -> e = AttributeError)
  /\ (strip <$> text self = Some [] ->
      is_connected_to_value self next = Ok false).
Proof.
  unfold is_connected_to_value.
  destruct (text self) as [ts|]; simpl.
  - destruct (decide (strip ts = [])) as [E1|E1].
    + rewrite (bool_decide_eq_true_2 _ E1). split; [|split].
      * split; [discriminate|]. intros [Hc|[Hc _]]; [discriminate|].
        exfalso. apply Hc. f_equal. exact E1.
      * intros e Hc. discriminate.
      * reflexivity.
    + rewrite (bool_decide_eq_false_2 _ E1).
      destruct (text next) as [tn|]; simpl.
      * destruct (bool_decide (strip tn = [])).
        -- split; [|split]; [|intros e Hc; discriminate|intros [= Hc]; contradiction].
           split; [discriminate|]. intros [Hc|[_ Hc]]; discriminate.
        -- split; [|split]; [|intros e Hc; discriminate|intros [= Hc]; contradiction].
           split; [discriminate|]. intros [Hc|[_ Hc]]; discriminate.
      * split; [|split]; [|intros e [= <-]; reflexivity|intros [= Hc]; contradiction].
        split; [|reflexivity]. intros _. right. split; [congruence|reflexivity].
  - split; [|split]; [|intros e [= <-]; reflexivity|discriminate].
    split; [|reflexivity]. intros _. left. reflexivity.
Qed.

(** * Centres and sizes *)

Section Centres.
Local Open Scope Q_scope.







End Centres.



(** * More on clipping *)

Section ClipMore.
Context {A : Type} `{RectLike A}.

Lemma clip_step_fixed (c : Rectangle) (a : A) :
  Num.le (left a) (x1 c) -> Num.le (x2 c) (right a) ->
  Num.le (top a) (y1 c) -> Num.le (y2 c) (bottom a) ->
  clip_step c a = c.
Proof.
  unfold Num.le, clip_step. intros H1 H2 H3 H4.
  rewrite !max_leb, !min_leb, H1, H2, H3, H4. destruct c; reflexivity.
Qed.

Lemma clip_loop_fixed (rs : list A) (c : Rectangle) :
  inverted c = false ->
  Forall (fun a => Num.le (left a) (x1 c) /\ Num.le (x2 c) (right a)
                   /\ Num.le (top a) (y1 c) /\ Num.le (y2 c) (bottom a)) rs ->
  clip_loop c rs = Some c.
Proof.
  intros Hinv. induction 1 as [|a rs (H1 & H2 & H3 & H4) _ IH]; [reflexivity|].
  simpl. rewrite (clip_step_fixed c a H1 H2 H3 H4), Hinv. exact IH.
Qed.

End ClipMore.

(** X23: when one of the rectangles is itself inverted, [empty_box]
    among them, [clip] returns the sentinel, whatever the box and the
    other rectangles are. *)
Theorem X23_clip_inverted_argument {A : Type} `{RectLike A}
    (h : heap) (self : loc) (b : Box) (rs : list A) (a : A) :
  h !! self = Some b ->
  a ∈ rs ->
  Num.gtb (left a) (right a) = true \/ Num.gtb (top a) (bottom a) = true ->
  clip self rs h = (Ok empty_box, h).
Proof.
  intros Hb Ha Hinv.
  assert (Hne : rs <> []) by (intros ->; inversion Ha).
  rewrite (clip_run h self b rs Hb), (clip_loop_fold rs _ Hne).
  destruct (inverted (fold_left clip_step rs (rect b))) eqn:E; [reflexivity|].
  exfalso. apply not_inverted_le in E as [Hx Hy].
  destruct (fold_clip_within rs (rect b)) as [_ Hall].
  rewrite Forall_forall in Hall. destruct (Hall a Ha) as (H1 & H2 & H3 & H4).
  unfold Num.le in *. rewrite !gtb_leb, !negb_true_iff in Hinv.
  destruct Hinv as [Hc|Hc].
  - rewrite (leb_trans _ _ _ H1 (leb_trans _ _ _ Hx H2)) in Hc. discriminate.
  - rewrite (leb_trans _ _ _ H3 (leb_trans _ _ _ Hy H4)) in Hc. discriminate.
Qed.

Lemma X23_witness :
  clip 1 [box_of 0 0 5 5; empty_box_value] (init_heap ++ [box_of 0 0 10 10])
  = (Ok empty_box, init_heap ++ [box_of 0 0 10 10]).
Proof.
  apply (X23_clip_inverted_argument (init_heap ++ [box_of 0 0 10 10]) 1
           (box_of 0 0 10 10) [box_of 0 0 5 5; empty_box_value] empty_box_value).
  - reflexivity.
  - apply list_elem_of_further, list_elem_of_here.
  - left. reflexivity.
Defined.

(** X24: clipping again by the same rectangles changes nothing: the
    second call returns the sentinel when the first did, and otherwise a
    new box with the same attributes. *)
Theorem X24_clip_idempotent {A : Type} `{RectLike A}
    (h : heap) (self : loc) (b : Box) (rs : list A) :
  sentinel_ok h ->
  h !! self = Some b ->
  returned (and_then (clip self rs h) (fun l => clip l rs)) = returned (clip self rs h)
  /\ is_sentinel (and_then (clip self rs h) (fun l => clip l rs))
     = is_sentinel (clip self rs h).
Proof.
  intros Hs Hb.
  assert (Hlen : 0 < length h) by (apply lookup_lt_Some in Hs; exact Hs).
  assert (Hfresh : forall n, bool_decide (length h + n = empty_box) = false).
  { intros n. apply bool_decide_eq_false_2. unfold empty_box. lia. }
  pose proof (Hfresh 0) as Hf0. rewrite Nat.add_0_r in Hf0.
  rewrite (clip_run h self b rs Hb).
  destruct rs as [|a0 rs'].
  - simpl. unfold and_then, returned, is_sentinel. simpl.
    rewrite (clip_run _ (length h) (Box_new (rect b) None None None))
      by (apply list_lookup_middle; reflexivity).
    simpl. rewrite !list_lookup_middle by (rewrite ?length_app; reflexivity).
    rewrite length_app. simpl. rewrite Hfresh, Hf0. split; reflexivity.
  - set (rs := a0 :: rs').
    rewrite (clip_loop_fold rs _ ltac:(discriminate)).
    set (c := fold_left clip_step rs (rect b)).
    destruct (inverted c) eqn:E.
    + unfold and_then. simpl.
      rewrite (clip_run h empty_box _ rs Hs).
      change (rect empty_box_value) with empty_rect.
      rewrite (clip_loop_empty_rect rs ltac:(discriminate)). split; reflexivity.
    + unfold and_then. simpl.
      rewrite (clip_run _ (length h) (Box_new c None None None))
        by (apply list_lookup_middle; reflexivity).
      simpl rect. rewrite clip_loop_fixed.
      * unfold returned, is_sentinel. simpl.
        rewrite !list_lookup_middle by (rewrite ?length_app; reflexivity).
        rewrite length_app. simpl. rewrite Hfresh, Hf0. split; reflexivity.
      * exact E.
      * destruct (fold_clip_within rs (rect b)) as [_ Hall]. exact Hall.
Qed.

Lemma X24_witness :
  returned (and_then (clip 1 [box_of 2 2 20 20] (init_heap ++ [box_of 0 0 10 10]))
                     (fun l => clip l [box_of 2 2 20 20]))
  = returned (clip 1 [box_of 2 2 20 20] (init_heap ++ [box_of 0 0 10 10])).
Proof.
  apply (X24_clip_idempotent (init_heap ++ [box_of 0 0 10 10]) 1 (box_of 0 0 10 10)
           [box_of 2 2 20 20]); reflexivity.
Defined.
